(** * autoscroll: the text-file viewer of [src/autoscroll.c]

    The whole program is the C function [main].  It is embedded here phase by
    phase, in the order of the source:

    - command line processing (the [getopt] loop, the operand, [strtol]);
    - file reading (the [getline] loop that builds the linked list of lines);
    - the signal loop ([sigwait] and the [switch] on the signal number), whose
      [SIGALRM] branch scrolls, paginates and draws the status bar.

    Conventions of the embedding.

    - C [int]s that stay small in every run ([seconds], [time_to_scroll],
      [start_line_number], the row counters) are [Z]; the one conversion that
      can wrap, [long] to [int] after [strtol], is written out.
    - The linked list [struct Line] is a [list Line]; [NULL] is [nil].
      Dereferencing [NULL] is the outcome [Undefined NullPointer].
    - The division in [ceil((length - 1.0) / ws_col)] is exact on doubles for
      the line lengths a terminal viewer meets (below 2^37); it is modelled by
      the integer ceiling.  With [ws_col = 0] the quotient is infinite or NaN
      and its conversion to [int] is undefined: [Undefined FloatToInt].
    - The environment (terminal, file system, clock, delivered signals) is an
      explicit input.  [sigprocmask], [sigwait], [calloc], [malloc],
      [getline] on an open file, [localtime] and [fclose] are taken to
      succeed; the exits on their failure are not part of the model.
    - Text is a [string] without NUL bytes, so that [printf("%s")] writes a
      whole line and [strlen] is its length.
    - [getopt] is the POSIX one that the feature macros of the source select:
      it stops at the first operand.
    - [s_value] and [file_path] are copied without their terminating NUL.
      What [strtol] and [fopen] read is the copied text followed by the bytes
      that lie after it in the heap up to the first NUL; those bytes are an
      input of the model ([after_s_value], [after_file_path]), empty when
      the allocator leaves a zero byte after the copy. *)

From Stdlib Require Import ZArith List String Ascii Bool Lia DecimalString.
Import ListNotations.

Open Scope string_scope.
Open Scope Z_scope.

(** ** C library functions used by [main] *)

Module Libc.

Definition newline : ascii := ascii_of_nat 10.
Definition nl : string := String newline EmptyString.
Definition ESC : string := String (ascii_of_nat 27) EmptyString.

Definition EXIT_SUCCESS : Z := 0.
Definition EXIT_FAILURE : Z := 1.

Definition INT_MIN : Z := - 2 ^ 31.
Definition INT_MAX : Z := 2 ^ 31 - 1.
Definition LONG_MIN : Z := - 2 ^ 63.
Definition LONG_MAX : Z := 2 ^ 63 - 1.

(** Conversion of a [long] to [int] (the assignment [seconds = strtol(...)]):
    reduction modulo 2^32 into the signed range, as gcc defines it. *)
Definition int_of_long (v : Z) : Z := (v + 2 ^ 31) mod 2 ^ 32 - 2 ^ 31.

(** [printf("%d", z)] *)
Definition fmt_d (z : Z) : string := NilZero.string_of_int (Z.to_int z).

(** [printf("%c", c)] *)
Definition fmt_c (c : ascii) : string := String c EmptyString.

(** *** [strtol(nptr, &end_ptr, 0)] with a 64-bit [long] *)

Record strtol_result := {
  value : Z;          (* the returned long *)
  end_ptr : string;   (* the text from [*end_ptr] on *)
  erange : bool       (* errno was set to ERANGE *)
}.

Definition isspace (c : ascii) : bool :=
  let n := nat_of_ascii c in
  (n =? 32)%nat || ((9 <=? n)%nat && (n <=? 13)%nat).

Fixpoint skip_space (s : string) : string :=
  match s with
  | String c s' => if isspace c then skip_space s' else s
  | EmptyString => s
  end.

(** Value of a digit character in bases up to 16, if it is one. *)
Definition digit_value (c : ascii) : option Z :=
  let n := Z.of_nat (nat_of_ascii c) in
  if (48 <=? n) && (n <=? 57) then Some (n - 48)
  else if (97 <=? n) && (n <=? 102) then Some (n - 87)
  else if (65 <=? n) && (n <=? 70) then Some (n - 55)
  else None.

Definition digit_in (base : Z) (c : ascii) : option Z :=
  match digit_value c with
  | Some d => if d <? base then Some d else None
  | None => None
  end.

(** Longest run of digits of [base] at the front of [s]: the accumulated
    magnitude, the number of digits read, and the rest. *)
Fixpoint digits (base : Z) (s : string) (acc : Z) (n : nat)
  : Z * nat * string :=
  match s with
  | String c s' =>
      match digit_in base c with
      | Some d => digits base s' (acc * base + d) (S n)
      | None => (acc, n, s)
      end
  | EmptyString => (acc, n, s)
  end.

Definition is_x (c : ascii) : bool := (c =? "x")%char || (c =? "X")%char.

(** Base 0: a [0x]/[0X] prefix followed by a hex digit selects 16, a
    leading [0] selects 8, anything else 10.  Returns the base and the text
    at which the digits start. *)
Definition detect_base (s : string) : Z * string :=
  match s with
  | String c0 (String cx (String ch rest)) =>
      if (c0 =? "0")%char && is_x cx then
        match digit_in 16 ch with
        | Some _ => (16, String ch rest)
        | None => (8, s)
        end
      else if (c0 =? "0")%char then (8, s) else (10, s)
  | String c0 _ => if (c0 =? "0")%char then (8, s) else (10, s)
  | EmptyString => (10, s)
  end.

Definition strtol (nptr : string) : strtol_result :=
  let s := skip_space nptr in
  let '(negative, s1) :=
    match s with
    | String c s' =>
        if (c =? "-")%char then (true, s')
        else if (c =? "+")%char then (false, s')
        else (false, s)
    | EmptyString => (false, s)
    end in
  let '(base, s2) := detect_base s1 in
  let '(magnitude, count, rest) := digits base s2 0 0 in
  match count with
  | O => {| value := 0; end_ptr := nptr; erange := false |}
  | S _ =>
      let v := if negative then - magnitude else magnitude in
      if v <? LONG_MIN then
        {| value := LONG_MIN; end_ptr := rest; erange := true |}
      else if LONG_MAX <? v then
        {| value := LONG_MAX; end_ptr := rest; erange := true |}
      else {| value := v; end_ptr := rest; erange := false |}
  end.

(** *** [strftime(buf, max, "%T", tm)] *)

Record tm := { tm_hour : Z; tm_min : Z; tm_sec : Z }.

Definition digit_char (d : Z) : ascii := ascii_of_nat (48 + Z.to_nat d).

(** [%H], [%M] and [%S]: two decimal digits, zero padded. *)
Definition two_digits (v : Z) : string :=
  String (digit_char (v / 10 mod 10))
    (String (digit_char (v mod 10)) EmptyString).

Definition fmt_T (t : tm) : string :=
  two_digits (tm_hour t) ++ ":" ++ two_digits (tm_min t) ++ ":"
    ++ two_digits (tm_sec t).

(** Returns [None] for the C result 0: the text and its terminating NUL do
    not fit in [max] bytes. *)
Definition strftime (max : nat) (t : tm) : option string :=
  let s := fmt_T t in
  if (String.length s <? max)%nat then Some s else None.

(** [perror(prefix)] when errno is ERANGE *)
Definition perror_ERANGE (prefix : string) : string :=
  prefix ++ ": Numerical result out of range" ++ nl.

End Libc.

Import Libc.

(** ** Data model *)

(** [struct Line]; the [next] pointer is the tail of the list. *)
Record Line := {
  content : string;
  length : Z   (* includes the newline, per getline()'s behaviour *)
}.

(** [struct winsize], as filled by [ioctl(TIOCGWINSZ)]: two unsigned shorts. *)
Record winsize := { ws_row : Z; ws_col : Z }.

(** ** Command line processing (source lines 88-179) *)

Definition USAGE (argv0 : string) : string :=
  "Usage:" ++ nl ++ "$ " ++ argv0 ++ " [-s secs] textfile" ++ nl
    ++ "where secs is a positive integer < 60" ++ nl.

Definition msg_duplicate (argv0 : string) : string :=
  "Duplicate values for -s" ++ nl ++ USAGE argv0.
Definition msg_missing_argument (optopt : ascii) (argv0 : string) : string :=
  "Missing argument for " ++ fmt_c optopt ++ nl ++ USAGE argv0.
Definition msg_unknown_option (optopt : ascii) (argv0 : string) : string :=
  "Unknown option: " ++ fmt_c optopt ++ nl ++ USAGE argv0.
Definition msg_no_file (argv0 : string) : string :=
  "File path not provided." ++ nl ++ USAGE argv0.
Definition msg_non_integer (argv0 : string) : string :=
  "Non-integer seconds was supplied." ++ nl ++ USAGE argv0.
Definition msg_seconds_range (argv0 : string) : string :=
  "Seconds must be a positive integer less than 60." ++ nl ++ USAGE argv0.
Definition msg_strtol : string := perror_ERANGE "strtol():".

Inductive options :=
| OptionsDone (s_value : option string) (operands : list string)
| OptionsFatal (msg : string).

(** The [while (true)] loop around [getopt(argc, argv, ":s:")], one option per
    iteration.  The source defines _XOPEN_SOURCE and _POSIX_C_SOURCE and not
    _GNU_SOURCE, so the C library gives it the POSIX [getopt]: the options end
    at the first argv element that is not an option (one that does not begin
    with a dash, or a lone dash), which stays at [argv[optind]]; a lone [--]
    ends them too and is skipped.  [s_value] is [Some] exactly when
    [s_option] is true and holds the text of [optarg]; [operands] is [argv]
    from [optind] on. *)
Fixpoint getopt_loop (argv0 : string) (args : list string)
    (s_value : option string) : options :=
  match args with
  | [] => OptionsDone s_value []
  | a :: rest =>
      if (a =? "--")%string then OptionsDone s_value rest
      else
        match a with
        | String dash (String c optrest) =>
            if (dash =? "-")%char then
              if (c =? "s")%char then
                (* option s, argument in the same element or in the next one *)
                match optrest, rest with
                | EmptyString, [] => OptionsFatal (msg_missing_argument c argv0)
                | EmptyString, optarg :: rest' =>
                    match s_value with
                    | Some _ => OptionsFatal (msg_duplicate argv0)
                    | None => getopt_loop argv0 rest' (Some optarg)
                    end
                | optarg, _ =>
                    match s_value with
                    | Some _ => OptionsFatal (msg_duplicate argv0)
                    | None => getopt_loop argv0 rest (Some optarg)
                    end
                end
              else OptionsFatal (msg_unknown_option c argv0)
            else OptionsDone s_value args
        | _ => OptionsDone s_value args
        end
  end.

Inductive command_line :=
| Parsed (seconds : Z) (file_path : string)
| Fatal (msg : string).   (* message on stderr, then exit(EXIT_FAILURE) *)

(** "extracting seconds": [strtol], the errno test, the [*end_ptr] test and
    the range test, in the order of the source.  [s_value] was filled by
    [calloc(sizeof(char), strlen(optarg))] and [strncpy] of [strlen(optarg)]
    characters: it has no terminating NUL of its own, and [strtol] reads the
    text of [optarg] followed by [after_s_value], the bytes that lie after
    the copy in the heap up to the first NUL. *)
Definition extract_seconds (argv0 after_s_value : string)
    (s_value : option string) : Z + string :=
  match s_value with
  | None => inl 1   (* default *)
  | Some optarg =>
      let r := strtol (optarg ++ after_s_value) in
      let seconds := int_of_long (value r) in
      if erange r then inr msg_strtol
      else if negb (end_ptr r =? "")%string then inr (msg_non_integer argv0)
      else if (seconds <? 1) || (seconds >? 59) then
        inr (msg_seconds_range argv0)
      else inl seconds
  end.

(** Source lines 88-179.  [file_path] is copied like [s_value], without a
    terminating NUL: as a C string it is [argv[optind]] followed by
    [after_file_path], the bytes that lie after that copy up to the first
    NUL. *)
Definition command_line_processing (argv0 after_s_value after_file_path : string)
    (args : list string) : command_line :=
  match getopt_loop argv0 args None with
  | OptionsFatal msg => Fatal msg
  | OptionsDone s_value operands =>
      match operands with
      | [] => Fatal (msg_no_file argv0)   (* argc == optind *)
      | file :: _ =>
          match extract_seconds argv0 after_s_value s_value with
          | inl seconds => Parsed seconds (file ++ after_file_path)
          | inr msg => Fatal msg
          end
      end
  end.

(** ** File reading (source lines 184-259) *)

(** The [getline] loop.  [current] is the text of the line being read; a line
    is closed by its newline, which it keeps, and a last line without a newline
    is closed by the end of the file.  Each node stores the text and the
    length [getline] returned. *)
Fixpoint read_lines (file : string) (current : string) : list Line :=
  match file with
  | EmptyString =>
      match current with
      | EmptyString => []
      | _ => [ {| content := current;
                  length := Z.of_nat (String.length current) |} ]
      end
  | String c file' =>
      if Ascii.eqb c newline then
        let text := current ++ nl in
        {| content := text; length := Z.of_nat (String.length text) |}
          :: read_lines file' EmptyString
      else read_lines file' (current ++ String c EmptyString)
  end.

(** ** The signal loop (source lines 261-479) *)

(** "tracking data".  [lines_printed] and [physical_lines_printed] are 0
    whenever a tick starts (initialised to 0, reset after every render), so
    they are locals of the pagination below rather than fields. *)
Record State := {
  head : list Line;
  start_line_number : Z;   (* line number of first line on screen *)
  display_and_exit : bool;
  paused : bool;           (* hit by ctrl+z *)
  time_to_scroll : Z       (* countdown for when to scroll *)
}.

Definition initial_state (seconds : Z) (lines : list Line) : State :=
  {| head := lines; start_line_number := 1; display_and_exit := false;
     paused := false; time_to_scroll := seconds |}.

Definition set_paused (b : bool) (st : State) : State :=
  {| head := head st; start_line_number := start_line_number st;
     display_and_exit := display_and_exit st; paused := b;
     time_to_scroll := time_to_scroll st |}.

Definition set_time_to_scroll (t : Z) (st : State) : State :=
  {| head := head st; start_line_number := start_line_number st;
     display_and_exit := display_and_exit st; paused := paused st;
     time_to_scroll := t |}.

Definition set_display_and_exit (b : bool) (st : State) : State :=
  {| head := head st; start_line_number := start_line_number st;
     display_and_exit := b; paused := paused st;
     time_to_scroll := time_to_scroll st |}.

Inductive undefined_behaviour :=
| NullPointer   (* a member of a NULL [struct Line *] is read *)
| FloatToInt.   (* an infinite or NaN double is converted to int *)

Inductive result (A : Type) :=
| Ok (a : A)
| UB (u : undefined_behaviour).
Arguments Ok {A} a.
Arguments UB {A} u.

(** Ceiling of [a / b] for [b > 0]. *)
Definition ceil_quot (a b : Z) : Z := - ((- a) / b).

(** [int rows_needed = ceil((line_walker->length - 1.0) / ws_col)], then the
    empty line case. *)
Definition rows_needed (ws : winsize) (l : Line) : result Z :=
  if ws_col ws =? 0 then UB FloatToInt
  else
    let rows := ceil_quot (length l - 1) (ws_col ws) in
    Ok (if length l =? 1 then 1 else rows).

(** What the "print text" loop leaves behind. *)
Record page := {
  line_walker : list Line;        (* first line not printed, [nil] for NULL *)
  lines_printed : Z;
  physical_lines_printed : Z;
  text : string                   (* what printf("%s") wrote *)
}.

(** The [while (physical_lines_printed < ws_row - 1)] loop. *)
Fixpoint print_text (ws : winsize) (walker : list Line)
    (printed physical : Z) (out : string) : result page :=
  if physical <? ws_row ws - 1 then
    match walker with
    | [] => UB NullPointer   (* line_walker->length *)
    | l :: next =>
        match rows_needed ws l with
        | UB u => UB u
        | Ok rows =>
            if physical + rows <=? ws_row ws - 1 then
              (* if the line can fit, print it *)
              match next with
              | [] => (* EOF *)
                  Ok {| line_walker := []; lines_printed := printed + 1;
                        physical_lines_printed := physical + rows;
                        text := out ++ content l |}
              | _ :: _ =>
                  print_text ws next (printed + 1) (physical + rows)
                    (out ++ content l)
              end
            else
              Ok {| line_walker := walker; lines_printed := printed;
                    physical_lines_printed := physical; text := out |}
        end
    end
  else
    Ok {| line_walker := walker; lines_printed := printed;
          physical_lines_printed := physical; text := out |}.

(** The condition of source lines 393-396; [&&] binds tighter than [||]. *)
Definition first_frame_is_whole (ws : winsize) (p : page) (start : Z) : bool :=
  (match line_walker p with
   | [] => true
   | _ :: next =>
       (physical_lines_printed p =? ws_row ws - 1)
       && match next with [] => true | _ :: _ => false end
   end)
  && (start =? 1).

Definition clear_screen : string := ESC ++ "[2J" ++ ESC ++ "[3J" ++ ESC ++ "[H".

(** [printf(ESC "[%d;1f", ws_row)]: go to left most of bottom row. *)
Definition goto_bottom_row (ws : winsize) : string :=
  ESC ++ "[" ++ fmt_d (ws_row ws) ++ ";1f".

(** [printf("%s Lines: %d-%d", ...)] *)
Definition status_bar (time_string : string) (first last : Z) : string :=
  time_string ++ " Lines: " ++ fmt_d first ++ "-" ++ fmt_d last.

(** [printf(ESC "[%dG", ws_col - 2)]: park cursor at (R, C - 2). *)
Definition park_cursor (ws : winsize) : string :=
  ESC ++ "[" ++ fmt_d (ws_col ws - 2) ++ "G".

Definition msg_strftime : string :=
  "strftime(): failed to format time string" ++ nl.

(** Signals that [sigwait] can return.  [now] is the broken-down local time
    the clock gives during that tick. *)
Inductive signal :=
| SIGALRM (now : tm)
| SIGTSTP
| SIGINT
| SIGQUIT
| Terminating (signo : nat).   (* any other signal left in the mask *)

(** One iteration of the [while (true)] loop. *)
Inductive step_result :=
| Rendered (st : State) (out : string)
    (* the frame and the status bar were drawn, alarm(1) was set *)
| Handled (st : State)
    (* SIGTSTP or SIGINT *)
| RaisedSIGQUIT (st : State) (out : string)
    (* raise(SIGQUIT); break: nothing drawn, no alarm set *)
| Exited (status : Z) (out : string) (err : string)
| Undefined (u : undefined_behaviour).

(** "print text" and "print status bar": source lines 351-455.  [out] is what
    this tick wrote so far. *)
Definition render (ws : winsize) (st : State) (now : tm) (out : string)
    : step_result :=
  match print_text ws (head st) 0 0 EmptyString with
  | UB u => Undefined u
  | Ok p =>
      let st' :=
        if first_frame_is_whole ws p (start_line_number st)
        then set_display_and_exit true st else st in
      match strftime 9 now with
      | None => Exited EXIT_FAILURE (out ++ text p ++ goto_bottom_row ws)
                  msg_strftime
      | Some time_string =>
          Rendered st'
            (out ++ text p ++ goto_bottom_row ws
               ++ status_bar time_string (start_line_number st)
                    (start_line_number st + lines_printed p - 1)
               ++ park_cursor ws)
      end
  end.

(** The [case SIGALRM] branch. *)
Definition tick (seconds : Z) (ws : winsize) (st : State) (now : tm)
    : step_result :=
  if negb (paused st) then
    (* not ctrl-z'ed *)
    let t := time_to_scroll st - 1 in
    if ((t =? 0) && (start_line_number st >? 1)) || (t =? -1) then
      if display_and_exit st then
        RaisedSIGQUIT (set_time_to_scroll t st) clear_screen
      else
        (* scroll *)
        match head st with
        | [] => Undefined NullPointer   (* head->next *)
        | _ :: next_line =>
            match next_line with
            | [] => (* at end of file *)
                RaisedSIGQUIT
                  {| head := next_line;
                     start_line_number := start_line_number st;
                     display_and_exit := display_and_exit st;
                     paused := paused st; time_to_scroll := t |}
                  clear_screen
            | _ :: _ =>
                render ws
                  {| head := next_line;
                     start_line_number := start_line_number st + 1;
                     display_and_exit := display_and_exit st;
                     paused := paused st;
                     time_to_scroll := seconds (* reset countdown *) |}
                  now clear_screen
            end
        end
    else render ws (set_time_to_scroll t st) now clear_screen
  else render ws st now clear_screen.

(** The [switch (signal_number)]. *)
Definition handle (seconds : Z) (ws : winsize) (st : State) (sig : signal)
    : step_result :=
  match sig with
  | SIGALRM now => tick seconds ws st now
  | SIGTSTP => Handled (set_paused true st)    (* ctrl-z: pause *)
  | SIGINT => Handled (set_paused false st)    (* ctrl-c: unpause *)
  | SIGQUIT | Terminating _ =>
      (* terminating signal: clean up and close *)
      Exited EXIT_SUCCESS clear_screen EmptyString
  end.

(** The state with which the loop goes back to [sigwait], if it does. *)
Definition continues (r : step_result) : option State :=
  match r with
  | Rendered st _ | Handled st => Some st
  | _ => None
  end.

(** The loop over the signals the environment delivers.  A self-raised
    SIGQUIT is pending when the loop returns to [sigwait] and is what it
    receives next. *)
Fixpoint main_loop (seconds : Z) (ws : winsize) (st : State)
    (sigs : list signal) : list step_result :=
  match sigs with
  | [] => []
  | sig :: rest =>
      let r := handle seconds ws st sig in
      r :: match r with
           | Rendered st' _ | Handled st' => main_loop seconds ws st' rest
           | RaisedSIGQUIT st' _ => [handle seconds ws st' SIGQUIT]
           | Exited _ _ _ | Undefined _ => []
           end
  end.

(** The state in which the loop waits after the signals [sigs], if the
    program is still running then. *)
Fixpoint state_after (seconds : Z) (ws : winsize) (st : State)
    (sigs : list signal) : option State :=
  match sigs with
  | [] => Some st
  | sig :: rest =>
      match continues (handle seconds ws st sig) with
      | Some st' => state_after seconds ws st' rest
      | None => None
      end
  end.

(** ** The program *)

(** What the environment answers to the system calls of [main]. *)
Record environment := {
  isatty : bool;                     (* isatty(STDIN_FILENO) *)
  after_s_value : string;            (* heap bytes after the copy of optarg,
                                        up to the first NUL *)
  after_file_path : string;          (* heap bytes after the copy of the file
                                        name, up to the first NUL *)
  fopen : string -> option string;   (* the bytes of the file; [None] when
                                        fopen sets errno *)
  TIOCGWINSZ : winsize + string;     (* the window size, or strerror(errno) *)
  first_now : tm;                    (* the clock at the initial tick *)
  delivered : list signal            (* signals after the initial SIGALRM *)
}.

Inductive run :=
| SetupFailed (err : string) (opened : list string)
    (* [err] on stderr and exit(EXIT_FAILURE) before the signal loop;
       [opened] lists the paths given to fopen so far *)
| SignalLoop (opened : list string) (history : list step_result).

Definition main (env : environment) (argv0 : string) (args : list string)
    : run :=
  if negb (isatty env) then SetupFailed ("Not a terminal" ++ nl) []
  else
    match command_line_processing argv0 (after_s_value env)
            (after_file_path env) args with
    | Fatal msg => SetupFailed msg []
    | Parsed seconds file_path =>
        match fopen env file_path with
        | None => SetupFailed "fopen()" [file_path]
        | Some file =>
            let lines := read_lines file EmptyString in
            match TIOCGWINSZ env with
            | inr e => SetupFailed ("ioctl(): " ++ e ++ nl) [file_path]
            | inl ws =>
                (* raise(SIGALRM): trigger initial *)
                SignalLoop [file_path]
                  (main_loop seconds ws (initial_state seconds lines)
                     (SIGALRM (first_now env) :: delivered env))
            end
        end
    end.

(** ** Specification vocabulary *)

(** Number of characters of a line's text other than the newline that ends
    it: what the terminal shows of the line. *)
Fixpoint visible (s : string) : nat :=
  match s with
  | EmptyString => O
  | String c s' =>
      match s' with
      | EmptyString => if Ascii.eqb c newline then O else 1%nat
      | String _ _ => S (visible s')
      end
  end.

Definition visible_character_count (l : Line) : Z :=
  Z.of_nat (visible (content l)).

(** Rows the pagination charges for a line (0 where [rows_needed] is
    undefined). *)
Definition rows_of (ws : winsize) (l : Line) : Z :=
  match rows_needed ws l with
  | Ok rows => rows
  | UB _ => 0
  end.

Fixpoint frame_rows (ws : winsize) (frame : list Line) : Z :=
  match frame with
  | [] => 0
  | l :: frame' => rows_of ws l + frame_rows ws frame'
  end.

Fixpoint frame_text (frame : list Line) : string :=
  match frame with
  | [] => EmptyString
  | l :: frame' => content l ++ frame_text frame'
  end.

(** [suffix] ends [s]. *)
Definition ends_with (suffix s : string) : bool :=
  let n := String.length s in
  let k := String.length suffix in
  (k <=? n)%nat && (substring (n - k) k s =? suffix)%string.

(** The message ends with the usage text. *)
Definition shows_usage (argv0 msg : string) : bool :=
  ends_with (USAGE argv0) msg.

(** An argv element that [getopt] leaves alone. *)
Definition is_operand (a : string) : bool :=
  match a with
  | String dash (String _ _) => negb (dash =? "-")%char
  | _ => true
  end.

Definition is_rendered (r : step_result) : bool :=
  match r with
  | Rendered _ _ => true
  | _ => false
  end.

Definition count_renders (history : list step_result) : nat :=
  List.length (filter is_rendered history).

(** The words of one occurrence of the option with the argument [v]: [-s]
    and [v], or [-sv] in one word. *)
Definition s_option (v : string) (words : list string) : Prop :=
  words = ["-s"; v]
  \/ (v <> EmptyString /\ words = [String "-" (String "s" v)]).

(** The options a command line can begin with and go on: none, or one
    occurrence of -s; [s_value] is what the loop has kept of them. *)
Definition option_prefix (pre : list string) (s_value : option string)
    : Prop :=
  (pre = [] /\ s_value = None)
  \/ (exists v, s_option v pre /\ s_value = Some v).

(** The words from the file name on: an operand and whatever follows it, or
    [--], any word, and whatever follows. *)
Definition file_words (path : string) (words : list string) : Prop :=
  (is_operand path = true /\ exists others, words = path :: others)
  \/ (exists others, words = "--" :: path :: others).

(** A word that begins with a dash and another character that is not [s],
    other than [--]. *)
Definition unknown_word (c : ascii) (w : string) : Prop :=
  c <> "s"%char /\ w <> "--" /\ exists r, w = String "-" (String c r).

(** Rows a line takes on the terminal: the ceiling of its visible characters
    over the columns, and one row for a line that shows none. *)
Definition rows_on_screen (ws : winsize) (l : Line) : Z :=
  if visible_character_count l =? 0 then 1
  else ceil_quot (visible_character_count l) (ws_col ws).

(** Rows a frame takes on the terminal. *)
Fixpoint frame_rows_on_screen (ws : winsize) (frame : list Line) : Z :=
  match frame with
  | [] => 0
  | l :: frame' => rows_on_screen ws l + frame_rows_on_screen ws frame'
  end.

(** The window has been drawn: the store paginates, and [display_and_exit]
    is set if its frame is one the loop takes for the whole file. *)
Definition settled (ws : winsize) (st : State) : Prop :=
  exists p,
    print_text ws (head st) 0 0 EmptyString = Ok p
    /\ (first_frame_is_whole ws p (start_line_number st) = true ->
        display_and_exit st = true).

(** What the "print text" loop guarantees about the page [p] it leaves when
    entered with the counters [printed] and [physical]: [frame] is the run of
    lines it printed. *)
Definition page_of (ws : winsize) (walker : list Line) (printed physical : Z)
    (out : string) (p : page) (frame : list Line) : Prop :=
  walker = (frame ++ line_walker p)%list
  /\ text p = out ++ frame_text frame
  /\ lines_printed p = printed + Z.of_nat (List.length frame)
  /\ physical_lines_printed p = physical + frame_rows ws frame
  /\ (forall before l after,
        frame = (before ++ l :: after)%list ->
        physical + frame_rows ws before + rows_of ws l <= ws_row ws - 1)
  /\ (forall l rest,
        line_walker p = l :: rest ->
        physical_lines_printed p < ws_row ws - 1 ->
        ws_row ws - 1 < physical_lines_printed p + rows_of ws l).

(** The store is the file from line [start_line_number] on: no line was
    skipped and none is held twice. *)
Definition store_in_step (lines : list Line) (st : State) : Prop :=
  1 <= start_line_number st
  /\ head st = skipn (Z.to_nat (start_line_number st - 1)) lines.

(** What a render writes when it shows all of [lines], from line 1 on. *)
Definition whole_frame (ws : winsize) (lines : list Line) (now : tm)
    : string :=
  clear_screen ++ frame_text lines ++ goto_bottom_row ws
    ++ status_bar (fmt_T now) 1 (Z.of_nat (List.length lines))
    ++ park_cursor ws.

(** The states of a run that never scrolled. *)
Definition unscrolled (lines : list Line) (d : bool) (t : Z) : State :=
  {| head := lines; start_line_number := 1; display_and_exit := d;
     paused := false; time_to_scroll := t |}.

(** One render of the whole file per tick, the countdown going down from
    [t]. *)
Fixpoint countdown_renders (ws : winsize) (lines : list Line) (t : Z)
    (nows : list tm) : list step_result :=
  match nows with
  | [] => []
  | now :: nows' =>
      Rendered (unscrolled lines true (t - 1)) (whole_frame ws lines now)
        :: countdown_renders ws lines (t - 1) nows'
  end.

(** Between the iterations of a run that has not scrolled: the countdown
    still runs, or the first render has latched [display_and_exit]. *)
Definition counting_or_latched (lines : list Line) (st : State) : Prop :=
  head st = lines /\ start_line_number st = 1
  /\ 0 <= time_to_scroll st
  /\ (display_and_exit st = true \/ 1 <= time_to_scroll st).

(** An iteration of a run that shows the whole file and never scrolls. *)
Definition shows_whole_file (ws : winsize) (lines : list Line)
    (r : step_result) : Prop :=
  match r with
  | Rendered st out =>
      head st = lines /\ start_line_number st = 1
      /\ display_and_exit st = true
      /\ exists now, out = whole_frame ws lines now
  | Handled st | RaisedSIGQUIT st _ =>
      head st = lines /\ start_line_number st = 1
  | Exited status _ _ => status = EXIT_SUCCESS
  | Undefined _ => False
  end.

(** Exit status of a run, if it exits. *)
Definition exit_status (r : run) : option Z :=
  match r with
  | SetupFailed _ _ => Some EXIT_FAILURE
  | SignalLoop _ history =>
      match last history (Undefined NullPointer) with
      | Exited status _ _ => Some status
      | _ => None
      end
  end.

(** Paths given to fopen during a run. *)
Definition opened_files (r : run) : list string :=
  match r with
  | SetupFailed _ opened | SignalLoop opened _ => opened
  end.

(** No newline occurs in [s]. *)
Fixpoint newline_free (s : string) : bool :=
  match s with
  | EmptyString => true
  | String c s' => negb (c =? newline)%char && newline_free s'
  end.

(** The last character of [s] is a newline. *)
Fixpoint ends_in_newline (s : string) : bool :=
  match s with
  | EmptyString => false
  | String c s' =>
      match s' with
      | EmptyString => (c =? newline)%char
      | String _ _ => ends_in_newline s'
      end
  end.

(** A line closed by its newline, the only one it holds. *)
Definition terminated (l : Line) : Prop :=
  exists body, newline_free body = true /\ content l = body ++ nl.

(** A line closed by the end of the file. *)
Definition unterminated (l : Line) : Prop :=
  newline_free (content l) = true /\ content l <> EmptyString.

(** The nodes [getline] can build: the stored length is the length of the
    text, and only the last line may lack its newline. *)
Fixpoint getline_shaped (ls : list Line) : Prop :=
  match ls with
  | [] => True
  | l :: rest =>
      length l = Z.of_nat (String.length (content l))
      /\ (terminated l \/ (rest = [] /\ unterminated l))
      /\ getline_shaped rest
  end.

(** What the loop keeps between its iterations on a file that is not
    empty: the store is not empty, and the countdown stays between 0 and
    [seconds], above 0 once the window has scrolled. *)
Definition run_invariant (seconds : Z) (st : State) : Prop :=
  head st <> []
  /\ 1 <= start_line_number st
  /\ 0 <= time_to_scroll st <= seconds
  /\ (start_line_number st = 1 \/ 1 <= time_to_scroll st).

(** An iteration without undefined behaviour and without a failure exit. *)
Definition well_defined (r : step_result) : Prop :=
  match r with
  | Undefined _ => False
  | Exited status _ _ => status = EXIT_SUCCESS
  | Rendered _ _ | Handled _ | RaisedSIGQUIT _ _ => True
  end.

(** Ticks, counting the one that raises SIGQUIT, that an unpaused run needs
    at most to reach the end of the file: those left until the next scroll,
    and [seconds] for each further line of the store. *)
Definition ticks_to_exit (seconds : Z) (st : State) : Z :=
  (if start_line_number st =? 1 then time_to_scroll st + 1
   else time_to_scroll st)
  + (Z.of_nat (List.length (head st)) - 1) * seconds.

(** The countdown runs out at the next tick. *)
Definition fires (st : State) : Prop :=
  (start_line_number st = 1 /\ time_to_scroll st = 0)
  \/ (1 < start_line_number st /\ time_to_scroll st = 1).

(** An iteration of a run that has not scrolled and draws, of the file
    [lines], the lines [frame] and no others. *)
Definition shows_first_frame (ws : winsize) (lines frame : list Line)
    (r : step_result) : Prop :=
  match r with
  | Rendered st out =>
      head st = lines /\ start_line_number st = 1
      /\ display_and_exit st = true
      /\ exists now, out = whole_frame ws frame now
  | Handled st | RaisedSIGQUIT st _ =>
      head st = lines /\ start_line_number st = 1
  | Exited status _ _ => status = EXIT_SUCCESS
  | Undefined _ => False
  end.

(** One render of [frame] per tick, the store holding [lines] and the
    countdown going down from [t]. *)
Fixpoint first_frame_renders (ws : winsize) (lines frame : list Line)
    (t : Z) (nows : list tm) : list step_result :=
  match nows with
  | [] => []
  | now :: nows' =>
      Rendered (unscrolled lines true (t - 1)) (whole_frame ws frame now)
        :: first_frame_renders ws lines frame (t - 1) nows'
  end.

(** Sample inputs for the examples. *)
Definition sample_ws : winsize := {| ws_row := 10; ws_col := 80 |}.
Definition sample_file : string := "a" ++ nl ++ "b" ++ nl ++ "c" ++ nl.
Definition sample_lines : list Line := read_lines sample_file EmptyString.
Definition narrow_ws : winsize := {| ws_row := 2; ws_col := 80 |}.
(** The sample file on [narrow_ws], one tick before the first scroll and
    right after it. *)
Definition about_to_scroll : State :=
  {| head := sample_lines; start_line_number := 1;
     display_and_exit := false; paused := false; time_to_scroll := 0 |}.
Definition after_scroll (seconds : Z) : State :=
  {| head := tl sample_lines; start_line_number := 2;
     display_and_exit := false; paused := false; time_to_scroll := seconds |}.
Definition wide_ws : winsize := {| ws_row := 24; ws_col := 80 |}.
(** 81 characters and no newline. *)
Definition unterminated_file : string :=
  string_of_list_ascii (repeat "x"%char 81).
Definition noon : tm := {| tm_hour := 12; tm_min := 0; tm_sec := 7 |}.

(** ** Basic facts *)

Lemma append_assoc (a b c : string) : (a ++ b) ++ c = a ++ (b ++ c).
Proof.
  induction a as [|x a IH]; simpl; [reflexivity | now rewrite IH].
Qed.

Lemma append_empty_r (a : string) : a ++ EmptyString = a.
Proof.
  induction a as [|x a IH]; simpl; [reflexivity | now rewrite IH].
Qed.

Lemma strftime_T (now : tm) : strftime 9 now = Some (fmt_T now).
Proof. reflexivity. Qed.

Lemma ceil_quot_spec (a b : Z) :
  0 < b -> (ceil_quot a b - 1) * b < a <= ceil_quot a b * b.
Proof.
  intros Hb. unfold ceil_quot.
  pose proof (Z.div_mod (- a) b ltac:(lia)) as E.
  pose proof (Z.mod_pos_bound (- a) b Hb) as M.
  nia.
Qed.

Lemma ceil_quot_pos (a b : Z) : 0 < b -> 0 < a -> 1 <= ceil_quot a b.
Proof.
  intros Hb Ha. pose proof (ceil_quot_spec a b Hb). nia.
Qed.

Lemma rows_needed_defined (ws : winsize) (l : Line) :
  ws_col ws <> 0 -> rows_needed ws l = Ok (rows_of ws l).
Proof.
  intros Hc. unfold rows_of, rows_needed.
  destruct (ws_col ws =? 0) eqn:E; [apply Z.eqb_eq in E; contradiction|].
  reflexivity.
Qed.

Lemma rows_of_Ok (ws : winsize) (l : Line) (rows : Z) :
  rows_needed ws l = Ok rows -> rows_of ws l = rows.
Proof. unfold rows_of. now intros ->. Qed.

Lemma rows_of_pos (ws : winsize) (l : Line) :
  0 < ws_col ws -> 1 <= length l -> 1 <= rows_of ws l.
Proof.
  intros Hc Hl. unfold rows_of, rows_needed.
  destruct (ws_col ws =? 0) eqn:E; [apply Z.eqb_eq in E; lia|].
  destruct (length l =? 1) eqn:E1; [lia|].
  apply Z.eqb_neq in E1. apply ceil_quot_pos; lia.
Qed.

Lemma visible_newline_terminated (s : string) :
  visible (s ++ nl) = String.length s.
Proof.
  induction s as [|c s IH]; [reflexivity|].
  change (visible (String c (s ++ nl))
          = S (String.length s)).
  simpl visible. destruct (s ++ nl) eqn:E.
  - destruct s; discriminate.
  - now rewrite IH.
Qed.

Lemma length_append (a b : string) :
  String.length (a ++ b) = (String.length a + String.length b)%nat.
Proof.
  induction a as [|x a IH]; simpl; [reflexivity | now rewrite IH].
Qed.

(** Every node the [getline] loop builds holds at least one character. *)
Lemma read_lines_length (file current : string) :
  Forall (fun l => 1 <= length l
                   /\ length l = Z.of_nat (String.length (content l)))
         (read_lines file current).
Proof.
  revert current. induction file as [|c file IH]; intros current; simpl.
  - destruct current; constructor; [|constructor].
    simpl. split; [lia | reflexivity].
  - destruct (Ascii.eqb c newline).
    + constructor; [|apply IH]. simpl. rewrite length_append. simpl.
      split; [lia | reflexivity].
    + apply IH.
Qed.

(** ** Pagination *)

Section Pagination.

Variable ws : winsize.

Lemma frame_rows_app (a b : list Line) :
  frame_rows ws (a ++ b) = frame_rows ws a + frame_rows ws b.
Proof. induction a as [|l a IH]; simpl; lia. Qed.

Lemma frame_text_app (a b : list Line) :
  frame_text (a ++ b)%list = frame_text a ++ frame_text b.
Proof.
  induction a as [|l a IH]; simpl; [reflexivity|].
  now rewrite IH, append_assoc.
Qed.

Lemma print_text_page (walker : list Line) :
  forall printed physical out p,
    print_text ws walker printed physical out = Ok p ->
    exists frame, page_of ws walker printed physical out p frame.
Proof.
  induction walker as [|l next IH]; intros printed physical out p H.
  - simpl in H. destruct (physical <? ws_row ws - 1); [discriminate|].
    injection H as <-. exists []. unfold page_of; simpl.
    rewrite append_empty_r. repeat split; try lia.
    + intros [|? ?] ? ? E; discriminate.
    + discriminate.
  - simpl in H. destruct (physical <? ws_row ws - 1) eqn:Hroom.
    + destruct (rows_needed ws l) as [rows|u] eqn:Hrows; [|discriminate].
      apply rows_of_Ok in Hrows.
      destruct (physical + rows <=? ws_row ws - 1) eqn:Hfit.
      * apply Z.leb_le in Hfit.
        assert (Hone : forall after before l0,
                   [l] = (before ++ l0 :: after)%list ->
                   before = [] /\ l0 = l).
        { intros after [|b before] l0 E; simpl in E.
          - now injection E as <- _.
          - injection E as _ E. destruct before; discriminate. }
        destruct next as [|l' next'].
        -- injection H as <-. exists [l]. unfold page_of; simpl.
           rewrite append_empty_r.
           repeat split; try lia.
           ++ intros before l0 after E.
              destruct (Hone _ _ _ E) as [-> ->]. simpl. lia.
           ++ discriminate.
        -- apply IH in H. destruct H as (frame & Hw & Ht & Hn & Hp & Hin & Hex).
           exists (l :: frame). unfold page_of; simpl.
           repeat split.
           ++ now rewrite <- Hw.
           ++ rewrite Ht. now rewrite append_assoc.
           ++ rewrite Hn. lia.
           ++ rewrite Hp. lia.
           ++ intros [|b before] l0 after E; simpl in E.
              ** injection E as <- _. simpl. lia.
              ** injection E as <- E. simpl.
                 specialize (Hin _ _ _ E). lia.
           ++ exact Hex.
      * apply Z.leb_gt in Hfit. injection H as <-.
        exists []. unfold page_of; simpl. rewrite append_empty_r.
        repeat split; try lia.
        -- intros [|? ?] ? ? E; discriminate.
        -- intros l0 rest E _. injection E as <- _. lia.
    + apply Z.ltb_ge in Hroom. injection H as <-.
      exists []. unfold page_of; simpl. rewrite append_empty_r.
      repeat split; try lia.
      intros [|? ?] ? ? E; discriminate.
Qed.

(** The rows charged to a frame never exceed the budget. *)
Lemma page_within_budget walker printed physical out p frame :
  page_of ws walker printed physical out p frame ->
  physical <= ws_row ws - 1 ->
  physical_lines_printed p <= ws_row ws - 1.
Proof.
  intros (_ & _ & _ & Hp & Hin & _) Hle.
  destruct frame as [|l frame] using rev_ind.
  - simpl in Hp. lia.
  - specialize (Hin frame l [] eq_refl).
    rewrite Hp, frame_rows_app. simpl. lia.
Qed.

Lemma print_text_defined (walker : list Line) :
  forall printed physical out,
    walker <> [] -> ws_col ws <> 0 ->
    exists p, print_text ws walker printed physical out = Ok p.
Proof.
  induction walker as [|l next IH]; intros printed physical out Hne Hc;
    [contradiction|].
  simpl. destruct (physical <? ws_row ws - 1); [|eauto].
  rewrite (rows_needed_defined ws l Hc).
  destruct (physical + rows_of ws l <=? ws_row ws - 1); [|eauto].
  destruct next as [|l' next']; [eauto|].
  apply IH; [discriminate | assumption].
Qed.

End Pagination.

(** What the pagination guarantees in terms of the rows it charges: the
    printed lines are a run of whole lines from the front of the store (the
    text is the concatenation of their full contents, the first line left out
    is left out entirely); each printed line was charged no more than the row
    budget that remained at its turn; a line is left out while rows remain
    only if it is charged more than what remains; and the rows charged to the
    frame never exceed [ws_row - 1]. *)
Lemma frame_whole_lines_within_budget (ws : winsize) (lines : list Line)
    (p : page) :
  1 <= ws_row ws ->
  print_text ws lines 0 0 EmptyString = Ok p ->
  exists frame,
    lines = (frame ++ line_walker p)%list
    /\ text p = frame_text frame
    /\ lines_printed p = Z.of_nat (List.length frame)
    /\ physical_lines_printed p = frame_rows ws frame
    /\ frame_rows ws frame <= ws_row ws - 1
    /\ (forall before l after,
          frame = (before ++ l :: after)%list ->
          rows_of ws l <= ws_row ws - 1 - frame_rows ws before)
    /\ (forall l rest,
          line_walker p = l :: rest ->
          frame_rows ws frame < ws_row ws - 1 ->
          ws_row ws - 1 - frame_rows ws frame < rows_of ws l).
Proof.
  intros Hrow H.
  destruct (print_text_page ws lines 0 0 EmptyString p H) as [frame Hpage].
  assert (Hle : physical_lines_printed p <= ws_row ws - 1)
    by (apply (page_within_budget ws _ _ _ _ _ _ Hpage); lia).
  destruct Hpage as (Hw & Ht & Hn & Hp & Hin & Hex).
  exists frame. simpl in Ht, Hn, Hp. rewrite Hp in Hle, Hex.
  repeat split; try assumption; try lia.
  - intros before l after E. specialize (Hin _ _ _ E). lia.
  - intros l rest E Hlt. specialize (Hex _ _ E Hlt). lia.
Qed.

(** C2: the rows a frame consumes can exceed [ws_row - 1].  The rows of a
    line are computed from [length - 1], so the last line of a file that
    lacks the final newline is charged for one character less than it shows
    (the defect of C3).  A file of one line of 81 characters and no newline,
    on a terminal of 2 rows and 80 columns: the budget is 1 row, the line is
    charged 1 row and printed, whole, and it takes [ceil (81 / 80) = 2] rows
    on the terminal, so the frame runs into the row of the status bar. *)
Theorem unterminated_line_overflows_frame :
  exists l,
    read_lines unterminated_file EmptyString = [l]
    /\ print_text narrow_ws [l] 0 0 EmptyString
       = Ok {| line_walker := []; lines_printed := 1;
               physical_lines_printed := 1; text := content l |}
    /\ content l = unterminated_file
    /\ visible_character_count l = 81
    /\ rows_on_screen narrow_ws l = 2
    /\ frame_rows_on_screen narrow_ws [l] = 2
    /\ ws_row narrow_ws - 1 = 1.
Proof.
  eexists. split; [reflexivity|]. repeat split.
Qed.

(** ** Rows charged to a line *)

(** For a line that ends with its newline, the rows charged are the ceiling
    of the visible characters over the columns, and 1 for a bare newline. *)
Lemma rows_needed_newline_terminated (ws : winsize) (l : Line) (s : string) :
  0 < ws_col ws ->
  content l = s ++ nl ->
  length l = Z.of_nat (String.length (content l)) ->
  visible_character_count l = length l - 1
  /\ rows_needed ws l
     = Ok (if visible_character_count l =? 0 then 1
           else ceil_quot (visible_character_count l) (ws_col ws)).
Proof.
  intros Hc Hs Hl. unfold visible_character_count.
  rewrite Hs in *. rewrite visible_newline_terminated.
  rewrite length_append in Hl. simpl in Hl.
  assert (E : Z.of_nat (String.length s) = length l - 1) by lia.
  split; [exact E|]. rewrite E. unfold rows_needed.
  destruct (ws_col ws =? 0) eqn:E0; [apply Z.eqb_eq in E0; lia|].
  destruct (length l =? 1) eqn:E1.
  - apply Z.eqb_eq in E1. now replace (length l - 1) with 0 by lia.
  - apply Z.eqb_neq in E1.
    destruct (length l - 1 =? 0) eqn:E2; [apply Z.eqb_eq in E2; lia|].
    reflexivity.
Qed.

(** A line of length 1 is charged one row at every positive width. *)
Lemma rows_needed_empty_line (ws : winsize) (l : Line) :
  0 < ws_col ws -> length l = 1 -> rows_needed ws l = Ok 1.
Proof.
  intros Hc Hl. unfold rows_needed.
  destruct (ws_col ws =? 0) eqn:E0; [apply Z.eqb_eq in E0; lia|].
  now rewrite Hl.
Qed.

(** C3: the rows charged to a line are computed from [length - 1], which is
    the visible character count only when the line ends with a newline.  The
    last line of a file that lacks the final newline has [length] visible
    characters: 81 of them on an 80 column terminal need
    [ceil (81 / 80) = 2] rows, and the code charges 1. *)
Theorem unterminated_last_line_rows :
  exists l,
    read_lines unterminated_file EmptyString = [l]
    /\ length l = 81
    /\ visible_character_count l = 81
    /\ ceil_quot (visible_character_count l) (ws_col wide_ws) = 2
    /\ rows_needed wide_ws l = Ok 1.
Proof.
  eexists. split; [reflexivity|]. repeat split.
Qed.

(** ** One tick *)

Section Tick.

Variables (seconds : Z) (ws : winsize).

(** The output of a render whose pagination left the page [p]. *)
Lemma render_Ok (st : State) (now : tm) (out : string) (p : page) :
  print_text ws (head st) 0 0 EmptyString = Ok p ->
  render ws st now out
  = Rendered
      (if first_frame_is_whole ws p (start_line_number st)
       then set_display_and_exit true st else st)
      (out ++ text p ++ goto_bottom_row ws
         ++ status_bar (fmt_T now) (start_line_number st)
              (start_line_number st + lines_printed p - 1)
         ++ park_cursor ws).
Proof. intros H. unfold render. now rewrite H, strftime_T. Qed.

Lemma render_UB (st : State) (now : tm) (out : string)
    (u : undefined_behaviour) :
  print_text ws (head st) 0 0 EmptyString = UB u ->
  render ws st now out = Undefined u.
Proof. intros H. unfold render. now rewrite H. Qed.

(** A render draws or stops on undefined behaviour; it never raises a
    signal and never exits. *)
Lemma render_inv (st : State) (now : tm) (out : string) (r : step_result) :
  render ws st now out = r ->
  (exists p,
      print_text ws (head st) 0 0 EmptyString = Ok p
      /\ r = Rendered
               (if first_frame_is_whole ws p (start_line_number st)
                then set_display_and_exit true st else st)
               (out ++ text p ++ goto_bottom_row ws
                  ++ status_bar (fmt_T now) (start_line_number st)
                       (start_line_number st + lines_printed p - 1)
                  ++ park_cursor ws))
  \/ (exists u, r = Undefined u).
Proof.
  intros <-.
  destruct (print_text ws (head st) 0 0 EmptyString) as [p|u] eqn:H.
  - left. exists p. split; [reflexivity | now apply render_Ok].
  - right. exists u. now apply render_UB.
Qed.

(** The only field a render writes is [display_and_exit], and it only
    sets it. *)
Lemma render_state (st st' : State) (now : tm) (out out' : string) :
  render ws st now out = Rendered st' out' ->
  head st' = head st
  /\ start_line_number st' = start_line_number st
  /\ paused st' = paused st
  /\ time_to_scroll st' = time_to_scroll st
  /\ (display_and_exit st' = true
      \/ display_and_exit st' = display_and_exit st).
Proof.
  intros H. destruct (render_inv _ _ _ _ H) as [(p & _ & E)|(u & E)];
    [|discriminate].
  injection E as -> _.
  destruct (first_frame_is_whole ws p (start_line_number st)); simpl;
    repeat split; auto.
Qed.

Lemma render_not_Handled (st st' : State) (now : tm) (out : string) :
  render ws st now out <> Handled st'.
Proof.
  intros H. destruct (render_inv _ _ _ _ H) as [(p & _ & E)|(u & E)];
    discriminate.
Qed.

(** Case analysis on the result [R] of a render that has to continue. *)
Ltac render_continues R :=
  match goal with
  | |- context [render ?w ?s ?n ?o] =>
      destruct (render w s n o) as [? ?|?|? ?|? ? ?|?] eqn:R;
      try discriminate; [|now apply render_not_Handled in R]
  end.

(** What one handled signal can do to the window: nothing, or one scroll
    that releases the front line and resets the countdown. *)
Lemma handle_window (st st' : State) (sig : signal) :
  continues (handle seconds ws st sig) = Some st' ->
  (start_line_number st' = start_line_number st /\ head st' = head st)
  \/ (start_line_number st' = start_line_number st + 1
      /\ (exists front, head st = front :: head st')
      /\ time_to_scroll st' = seconds).
Proof.
  destruct sig as [now| | | |signo]; simpl; try discriminate;
    try (intros [= <-]; left; split; reflexivity).
  unfold tick.
  destruct (negb (paused st)).
  - destruct (_ || _).
    + destruct (display_and_exit st); [discriminate|].
      destruct (head st) as [|front [|l' next']] eqn:Hh; try discriminate.
      render_continues R.
      intros [= <-]. apply render_state in R. simpl in R.
      destruct R as (Rh & Rs & _ & Rt & _).
      right. rewrite Rh, Rs, Rt. repeat split. now exists front.
    + render_continues R.
      intros [= <-]. apply render_state in R. simpl in R.
      destruct R as (Rh & Rs & _). left. now rewrite Rh, Rs.
  - render_continues R.
    intros [= <-]. apply render_state in R.
    destruct R as (Rh & Rs & _). left. now rewrite Rh, Rs.
Qed.

Lemma skipn_cons_next {A : Type} (n : nat) (l r : list A) (x : A) :
  skipn n l = x :: r -> skipn (S n) l = r.
Proof.
  revert l. induction n as [|n IH]; intros [|y l] H; simpl in *;
    try discriminate.
  - now injection H as _ ->.
  - now apply IH.
Qed.

Lemma handle_store (lines : list Line) (st st' : State) (sig : signal) :
  store_in_step lines st ->
  continues (handle seconds ws st sig) = Some st' ->
  store_in_step lines st'.
Proof.
  intros [H1 Hs] H. unfold store_in_step.
  destruct (handle_window _ _ _ H) as [[E1 E2]|(E1 & [front E2] & _)].
  - now rewrite E1, E2.
  - rewrite E1. split; [lia|].
    replace (Z.to_nat (start_line_number st + 1 - 1))
      with (S (Z.to_nat (start_line_number st - 1))) by lia.
    rewrite E2 in Hs. symmetry in Hs. now apply skipn_cons_next in Hs.
Qed.

Lemma state_after_store (lines : list Line) (sigs : list signal) :
  forall st st',
    store_in_step lines st ->
    state_after seconds ws st sigs = Some st' ->
    store_in_step lines st'.
Proof.
  induction sigs as [|sig sigs IH]; intros st st' Hs H; simpl in H.
  - now injection H as <-.
  - destruct (continues (handle seconds ws st sig)) as [st1|] eqn:E;
      [|discriminate].
    eapply IH; [|exact H]. eapply handle_store; eassumption.
Qed.

Lemma tick_Rendered (st st' : State) (now : tm) (out : string) :
  tick seconds ws st now = Rendered st' out ->
  exists st1, render ws st1 now clear_screen = Rendered st' out.
Proof.
  unfold tick.
  destruct (negb (paused st)); [|eauto].
  destruct (_ || _); [|eauto].
  destruct (display_and_exit st); [discriminate|].
  destruct (head st) as [|front [|l' next']]; try discriminate. eauto.
Qed.

Lemma tick_paused (st : State) (now : tm) :
  paused st = true ->
  tick seconds ws st now = render ws st now clear_screen.
Proof. intros H. unfold tick. now rewrite H. Qed.

(** Ticks that arrive while paused leave the window and the countdown. *)
Lemma paused_ticks (nows : list tm) :
  forall st sigs st',
    paused st = true ->
    state_after seconds ws st (map SIGALRM nows ++ sigs)%list = Some st' ->
    exists st1,
      state_after seconds ws st1 sigs = Some st'
      /\ head st1 = head st
      /\ start_line_number st1 = start_line_number st
      /\ time_to_scroll st1 = time_to_scroll st
      /\ paused st1 = true.
Proof.
  induction nows as [|now nows IH]; intros st sigs st' Hp H.
  - exists st. auto.
  - simpl in H. rewrite (tick_paused st now Hp) in H.
    destruct (render ws st now clear_screen) as [s o|s|s o|c o e|u] eqn:R;
      simpl in H; try discriminate;
      [|now apply render_not_Handled in R].
    apply render_state in R. destruct R as (Rh & Rs & Rp & Rt & _).
    destruct (IH s sigs st' ltac:(congruence) H) as (st1 & H1 & A & B & C & D).
    exists st1. repeat split; congruence.
Qed.

End Tick.

(** ** Scrolling *)

(** C4: in every state the loop reaches, the store holds the file from line
    [start_line_number] on; the signal handled next either leaves the window
    or is a scroll event, which removes exactly the front line of the store
    and increases the first displayed line number by exactly 1. *)
Theorem scroll_advances_by_one (seconds : Z) (ws : winsize)
    (lines : list Line) (sigs : list signal) (st st' : State) (sig : signal) :
  state_after seconds ws (initial_state seconds lines) sigs = Some st ->
  continues (handle seconds ws st sig) = Some st' ->
  (1 <= start_line_number st
   /\ head st = skipn (Z.to_nat (start_line_number st - 1)) lines)
  /\ ((start_line_number st' = start_line_number st /\ head st' = head st)
      \/ (start_line_number st' = start_line_number st + 1
          /\ exists front, head st = front :: head st')).
Proof.
  intros Hreach Hstep. split.
  - apply (state_after_store seconds ws lines sigs (initial_state seconds lines));
      [|exact Hreach].
    split; simpl; [lia | reflexivity].
  - destruct (handle_window _ _ _ _ _ Hstep) as [H|(H1 & H2 & _)]; auto.
Qed.

Lemma scroll_advances_by_one_witness :
  state_after 1 narrow_ws (initial_state 1 sample_lines) [SIGALRM noon]
  = Some about_to_scroll
  /\ continues (handle 1 narrow_ws about_to_scroll (SIGALRM noon))
     = Some (after_scroll 1)
  /\ (1 <= start_line_number about_to_scroll
      /\ head about_to_scroll
         = skipn (Z.to_nat (start_line_number about_to_scroll - 1))
             sample_lines)
  /\ ((start_line_number (after_scroll 1) = start_line_number about_to_scroll
       /\ head (after_scroll 1) = head about_to_scroll)
      \/ (start_line_number (after_scroll 1)
          = start_line_number about_to_scroll + 1
          /\ exists front, head about_to_scroll = front :: head (after_scroll 1))).
Proof.
  split; [reflexivity|]. split; [reflexivity|].
  apply (scroll_advances_by_one 1 narrow_ws sample_lines [SIGALRM noon]
           about_to_scroll (after_scroll 1) (SIGALRM noon));
    reflexivity.
Defined.

(** The seconds the command line yields. *)
Lemma extract_seconds_range (argv0 after_s : string)
    (s_value : option string) (seconds : Z) :
  extract_seconds argv0 after_s s_value = inl seconds -> 1 <= seconds <= 59.
Proof.
  unfold extract_seconds. destruct s_value as [v|]; [|intros [= <-]; lia].
  destruct (erange (strtol (v ++ after_s))); [discriminate|].
  destruct (negb _); [discriminate|].
  destruct (_ || _) eqn:E; [discriminate|].
  intros [= <-]. apply orb_false_iff in E. destruct E as [E1 E2].
  apply Z.ltb_ge in E1. rewrite Z.gtb_ltb in E2.
  apply Z.ltb_ge in E2. lia.
Qed.

Lemma command_line_seconds (argv0 after_s after_path : string)
    (args : list string) (seconds : Z) (file_path : string) :
  command_line_processing argv0 after_s after_path args
  = Parsed seconds file_path ->
  exists s_value file operands,
    getopt_loop argv0 args None = OptionsDone s_value (file :: operands)
    /\ file_path = file ++ after_path
    /\ extract_seconds argv0 after_s s_value = inl seconds.
Proof.
  unfold command_line_processing.
  destruct (getopt_loop argv0 args None) as [s_value [|f operands]|];
    try discriminate.
  destruct (extract_seconds argv0 after_s s_value) as [n|] eqn:E;
    [|discriminate].
  intros [= <- <-]. eauto 6.
Qed.

(** One occurrence of -s is kept if it is the first and is fatal if it is
    the second. *)
Lemma getopt_loop_s (argv0 v : string) (words rest : list string) :
  s_option v words ->
  getopt_loop argv0 (words ++ rest) None = getopt_loop argv0 rest (Some v)
  /\ forall v0,
       getopt_loop argv0 (words ++ rest) (Some v0)
       = OptionsFatal (msg_duplicate argv0).
Proof.
  intros [->|[Hv ->]].
  - split; reflexivity.
  - destruct v as [|c v']; [contradiction|]. split; reflexivity.
Qed.

Lemma getopt_loop_prefix (argv0 : string) (pre rest : list string)
    (s_value : option string) :
  option_prefix pre s_value ->
  getopt_loop argv0 (pre ++ rest) None = getopt_loop argv0 rest s_value.
Proof.
  intros [[-> ->]|(v & Hv & ->)]; [reflexivity|].
  now apply getopt_loop_s.
Qed.

(** The options end at the file name. *)
Lemma getopt_loop_file (argv0 path : string) (words : list string)
    (s_value : option string) :
  file_words path words ->
  exists others,
    getopt_loop argv0 words s_value = OptionsDone s_value (path :: others).
Proof.
  intros [[Hop [others ->]]|[others ->]]; exists others; [|reflexivity].
  cbn [getopt_loop].
  destruct path as [|dash [|c r]]; simpl in Hop |- *.
  - reflexivity.
  - now destruct (dash =? "-")%char.
  - apply negb_true_iff in Hop. now rewrite Hop.
Qed.

Lemma command_line_with_file (argv0 after_s after_path path : string)
    (pre words : list string) (s_value : option string) :
  option_prefix pre s_value -> file_words path words ->
  command_line_processing argv0 after_s after_path (pre ++ words)
  = match extract_seconds argv0 after_s s_value with
    | inl seconds => Parsed seconds (path ++ after_path)
    | inr msg => Fatal msg
    end.
Proof.
  intros Hpre Hfile. unfold command_line_processing.
  rewrite (getopt_loop_prefix argv0 pre words s_value Hpre).
  destruct (getopt_loop_file argv0 path words s_value Hfile) as [others ->].
  reflexivity.
Qed.

Lemma extract_seconds_decimal (argv0 : string) (n : Z) :
  1 <= n <= 59 ->
  extract_seconds argv0 EmptyString (Some (fmt_d n)) = inl n.
Proof.
  intros H.
  assert (E : exists k : nat, n = Z.of_nat k /\ (k < 60)%nat)
    by (exists (Z.to_nat n); lia).
  destruct E as (k & -> & Hk).
  do 60 (destruct k as [|k]; [try lia; reflexivity|]). lia.
Qed.

(** C5: the seconds the command line yields lie in [1,59]: they are the
    value [strtol] reads from the copy of the argument of -s (as an int),
    which for a value of [1,59] written in decimal and a copy followed by a
    NUL is that value, or they are 1 when -s is absent; and every scroll
    event leaves the countdown at exactly those seconds. *)
Theorem countdown_reset_after_scroll (argv0 after_s after_path : string)
    (args : list string) (seconds : Z) (file_path : string) (ws : winsize)
    (st st' : State) (sig : signal) :
  command_line_processing argv0 after_s after_path args
  = Parsed seconds file_path ->
  continues (handle seconds ws st sig) = Some st' ->
  start_line_number st' = start_line_number st + 1 ->
  1 <= seconds <= 59
  /\ (forall operands,
        getopt_loop argv0 args None = OptionsDone None operands ->
        seconds = 1)
  /\ (forall v operands,
        getopt_loop argv0 args None = OptionsDone (Some v) operands ->
        seconds = int_of_long (value (strtol (v ++ after_s))))
  /\ (forall n option path words,
        1 <= n <= 59 -> after_s = EmptyString ->
        s_option (fmt_d n) option -> file_words path words ->
        args = (option ++ words)%list ->
        seconds = n)
  /\ time_to_scroll st' = seconds.
Proof.
  intros Hcl Hstep Hscroll.
  destruct (command_line_seconds _ _ _ _ _ _ Hcl)
    as (s_value & file & ops & Hg & _ & He).
  pose proof (extract_seconds_range _ _ _ _ He) as Hr.
  repeat split; try lia.
  - intros operands H. rewrite Hg in H. injection H as -> _.
    simpl in He. now injection He as <-.
  - intros v operands H. rewrite Hg in H. injection H as -> _.
    unfold extract_seconds in He.
    destruct (erange (strtol (v ++ after_s))); [discriminate|].
    destruct (negb _); [discriminate|].
    destruct (_ || _); [discriminate|].
    now injection He as <-.
  - intros n option path words Hn -> Hopt Hfile ->.
    rewrite (command_line_with_file argv0 EmptyString after_path path
               option words (Some (fmt_d n))) in Hcl;
      [|right; eauto|assumption].
    rewrite (extract_seconds_decimal argv0 n Hn) in Hcl.
    now injection Hcl as <- _.
  - destruct (handle_window _ _ _ _ _ Hstep) as [[H _]|(_ & _ & H)];
      [lia | exact H].
Qed.

Lemma countdown_reset_after_scroll_witness :
  command_line_processing "autoscroll" EmptyString EmptyString
    ["-s"; "2"; "f"] = Parsed 2 "f"
  /\ continues (handle 2 narrow_ws about_to_scroll (SIGALRM noon))
     = Some (after_scroll 2)
  /\ start_line_number (after_scroll 2)
     = start_line_number about_to_scroll + 1
  /\ time_to_scroll (after_scroll 2) = 2.
Proof.
  split; [reflexivity|]. split; [reflexivity|]. split; [reflexivity|].
  apply (countdown_reset_after_scroll "autoscroll" EmptyString EmptyString
           ["-s"; "2"; "f"] 2 "f"
           narrow_ws about_to_scroll (after_scroll 2) (SIGALRM noon));
    reflexivity.
Defined.

(** ** Pause and resume *)

(** C6, as the claim states it: a tick that arrives while paused does not
    decrement the countdown. *)
Lemma paused_tick_does_not_decrement :
  exists st' out,
    tick 5 sample_ws (set_paused true (initial_state 5 sample_lines)) noon
    = Rendered st' out
    /\ time_to_scroll (set_paused true (initial_state 5 sample_lines)) = 5
    /\ time_to_scroll st' = 5
    /\ time_to_scroll st' <> 5 - 1.
Proof.
  eexists. eexists. split; [reflexivity|]. simpl. repeat split. discriminate.
Qed.

(** C6, amended: while paused the tick is still handled and is only a
    redraw: the frame is printed again, the status bar shows the time [now]
    of this tick, and the alarm is set again, while the countdown, the store
    and the first displayed line number stay as they are (the countdown is
    frozen, not decremented); such a tick never raises SIGQUIT. *)
Theorem paused_tick_only_redraws (seconds : Z) (ws : winsize) (st : State)
    (now : tm) :
  paused st = true ->
  (forall p,
      print_text ws (head st) 0 0 EmptyString = Ok p ->
      exists st',
        tick seconds ws st now
        = Rendered st'
            (clear_screen ++ text p ++ goto_bottom_row ws
               ++ status_bar (fmt_T now) (start_line_number st)
                    (start_line_number st + lines_printed p - 1)
               ++ park_cursor ws)
        /\ time_to_scroll st' = time_to_scroll st
        /\ head st' = head st
        /\ start_line_number st' = start_line_number st
        /\ paused st' = true)
  /\ (forall st' out, tick seconds ws st now <> RaisedSIGQUIT st' out)
  /\ (forall status out err, tick seconds ws st now <> Exited status out err).
Proof.
  intros Hp. rewrite (tick_paused seconds ws st now Hp). split; [|split].
  - intros p H. pose proof (render_Ok ws st now clear_screen p H) as R.
    eexists. split; [exact R|].
    apply render_state in R. destruct R as (Rh & Rs & Rp & Rt & _).
    repeat split; congruence.
  - intros st' out H.
    destruct (render_inv _ _ _ _ _ H) as [(p & _ & E)|(u & E)]; discriminate.
  - intros status out err H.
    destruct (render_inv _ _ _ _ _ H) as [(p & _ & E)|(u & E)]; discriminate.
Qed.

Lemma paused_tick_only_redraws_witness :
  paused (set_paused true (initial_state 5 sample_lines)) = true
  /\ forall st' out,
       tick 5 sample_ws (set_paused true (initial_state 5 sample_lines)) noon
       <> RaisedSIGQUIT st' out.
Proof.
  split; [reflexivity|].
  apply (paused_tick_only_redraws 5 sample_ws
           (set_paused true (initial_state 5 sample_lines)) noon).
  reflexivity.
Defined.

Lemma set_paused_same (st : State) :
  paused st = false -> set_paused false st = st.
Proof. destruct st; simpl; now intros ->. Qed.

Lemma set_display_and_exit_same (st : State) :
  display_and_exit st = true -> set_display_and_exit true st = st.
Proof. destruct st; simpl; now intros ->. Qed.

(** Every render leaves a settled state: the test of source lines 393-396
    has been made for the frame on screen. *)
Lemma render_settled (ws : winsize) (st st' : State) (now : tm)
    (out : string) :
  continues (render ws st now out) = Some st' -> settled ws st'.
Proof.
  destruct (render_inv ws st now out _ eq_refl) as [(p & Hp & E)|(u & E)];
    rewrite E; [|discriminate].
  simpl. intros [= <-]. exists p.
  destruct (first_frame_is_whole ws p (start_line_number st)) eqn:W.
  - split; [exact Hp | reflexivity].
  - split; [exact Hp|]. rewrite W. discriminate.
Qed.

Lemma tick_settled (seconds : Z) (ws : winsize) (st st' : State) (now : tm) :
  continues (tick seconds ws st now) = Some st' -> settled ws st'.
Proof.
  unfold tick.
  destruct (negb (paused st)); [|apply render_settled].
  destruct (_ || _); [|apply render_settled].
  destruct (display_and_exit st); [discriminate|].
  destruct (head st) as [|l [|l' next]]; try discriminate.
  apply render_settled.
Qed.

Lemma handle_settled (seconds : Z) (ws : winsize) (st st' : State)
    (sig : signal) :
  settled ws st -> continues (handle seconds ws st sig) = Some st' ->
  settled ws st'.
Proof.
  intros Hs. destruct sig; simpl; try discriminate.
  - apply tick_settled.
  - intros [= <-]. destruct Hs as (p & Hp & H). now exists p.
  - intros [= <-]. destruct Hs as (p & Hp & H). now exists p.
Qed.

Lemma state_after_settled (seconds : Z) (ws : winsize) (sigs : list signal) :
  forall st st',
    settled ws st -> state_after seconds ws st sigs = Some st' ->
    settled ws st'.
Proof.
  induction sigs as [|sig sigs IH]; intros st st' Hs; simpl.
  - now intros [= <-].
  - destruct (continues (handle seconds ws st sig)) as [st1|] eqn:E;
      [|discriminate].
    apply IH. exact (handle_settled seconds ws st st1 sig Hs E).
Qed.

(** The program raises SIGALRM before it waits for the first time, so every
    state in which it waits is settled. *)
Lemma waiting_state_settled (seconds : Z) (ws : winsize) (lines : list Line)
    (now0 : tm) (before : list signal) (st : State) :
  state_after seconds ws (initial_state seconds lines)
    (SIGALRM now0 :: before) = Some st ->
  settled ws st.
Proof.
  cbn [state_after handle].
  destruct (continues (tick seconds ws (initial_state seconds lines) now0))
    as [st1|] eqn:E; [|discriminate].
  apply state_after_settled. exact (tick_settled _ _ _ _ _ E).
Qed.

(** In a settled state a tick that arrives while paused changes nothing at
    all. *)
Lemma paused_tick_same (seconds : Z) (ws : winsize) (st : State) :
  settled ws st -> paused st = true ->
  exists p,
    print_text ws (head st) 0 0 EmptyString = Ok p
    /\ forall now,
         tick seconds ws st now
         = Rendered st
             (clear_screen ++ text p ++ goto_bottom_row ws
                ++ status_bar (fmt_T now) (start_line_number st)
                     (start_line_number st + lines_printed p - 1)
                ++ park_cursor ws).
Proof.
  intros (p & Hp & Hw) Hpaused. exists p. split; [exact Hp|]. intros now.
  rewrite (tick_paused seconds ws st now Hpaused).
  rewrite (render_Ok ws st now clear_screen p Hp).
  destruct (first_frame_is_whole ws p (start_line_number st));
    [|reflexivity].
  now rewrite (set_display_and_exit_same st (Hw eq_refl)).
Qed.

Lemma unchanging_ticks (seconds : Z) (ws : winsize) (st : State)
    (nows : list tm) (rest : list signal) :
  (forall now, continues (tick seconds ws st now) = Some st) ->
  main_loop seconds ws st (map SIGALRM nows ++ rest)
  = (map (tick seconds ws st) nows ++ main_loop seconds ws st rest)%list
  /\ state_after seconds ws st (map SIGALRM nows ++ rest)%list
     = state_after seconds ws st rest.
Proof.
  intros H. induction nows as [|now nows [IH1 IH2]]; [now split|].
  specialize (H now).
  cbn [map app main_loop state_after handle]. rewrite H.
  destruct (tick seconds ws st now) as [st1 out|st1| | |];
    try discriminate; injection H as ->; split; try assumption;
    now rewrite IH1.
Qed.

Lemma main_loop_app (seconds : Z) (ws : winsize) (sigs later : list signal) :
  forall st st1,
    state_after seconds ws st sigs = Some st1 ->
    main_loop seconds ws st (sigs ++ later)
    = (main_loop seconds ws st sigs ++ main_loop seconds ws st1 later)%list.
Proof.
  induction sigs as [|sig sigs IH]; intros st st1 H; simpl in H.
  - now injection H as <-.
  - simpl. destruct (handle seconds ws st sig) as [s o|s|s o|c o e|u];
      simpl in H; try discriminate.
    + now rewrite (IH s st1 H).
    + now rewrite (IH s st1 H).
Qed.

Lemma state_after_app (seconds : Z) (ws : winsize) (sigs later : list signal) :
  forall st st1,
    state_after seconds ws st sigs = Some st1 ->
    state_after seconds ws st (sigs ++ later)
    = state_after seconds ws st1 later.
Proof.
  induction sigs as [|sig sigs IH]; intros st st1; simpl.
  - now intros [= <-].
  - destruct (continues (handle seconds ws st sig)) as [st2|];
      [apply IH | discriminate].
Qed.

(** C7: in every state [st] in which the program waits for a signal, a
    pause followed, after any number of ticks, by a resume writes the paused
    flag and nothing else.  The pause and the resume draw nothing; each tick
    in between redraws the frame of [st] with the time of that tick and
    leaves the state exactly as the pause left it: the store, the first
    displayed line number, the countdown and the exit latch are those of
    [st]; and after the resume the program goes on from [st] (with the flag
    cleared) through whatever signals follow.  If [st] was running, the whole
    run is the uninterrupted run with the pause spliced in: every later step
    and every later output is the same, so no line is lost or shown twice. *)
Theorem pause_resume_only_touches_paused (seconds : Z) (ws : winsize)
    (lines : list Line) (now0 : tm) (before : list signal) (st : State)
    (nows : list tm) (after : list signal) :
  state_after seconds ws (initial_state seconds lines)
    (SIGALRM now0 :: before) = Some st ->
  (exists p,
      print_text ws (head st) 0 0 EmptyString = Ok p
      /\ forall now,
           tick seconds ws (set_paused true st) now
           = Rendered (set_paused true st)
               (clear_screen ++ text p ++ goto_bottom_row ws
                  ++ status_bar (fmt_T now) (start_line_number st)
                       (start_line_number st + lines_printed p - 1)
                  ++ park_cursor ws))
  /\ main_loop seconds ws st
       (SIGTSTP :: map SIGALRM nows ++ SIGINT :: after)
     = (Handled (set_paused true st)
          :: map (tick seconds ws (set_paused true st)) nows
          ++ Handled (set_paused false st)
          :: main_loop seconds ws (set_paused false st) after)%list
  /\ state_after seconds ws st
       (SIGTSTP :: map SIGALRM nows ++ SIGINT :: after)
     = state_after seconds ws (set_paused false st) after
  /\ (head (set_paused false st) = head st
      /\ start_line_number (set_paused false st) = start_line_number st
      /\ time_to_scroll (set_paused false st) = time_to_scroll st
      /\ display_and_exit (set_paused false st) = display_and_exit st)
  /\ (paused st = false ->
      set_paused false st = st
      /\ main_loop seconds ws (initial_state seconds lines)
           (SIGALRM now0 :: before
              ++ SIGTSTP :: map SIGALRM nows ++ SIGINT :: after)
         = (main_loop seconds ws (initial_state seconds lines)
              (SIGALRM now0 :: before)
              ++ Handled (set_paused true st)
              :: map (tick seconds ws (set_paused true st)) nows
              ++ Handled st :: main_loop seconds ws st after)%list
      /\ main_loop seconds ws (initial_state seconds lines)
           (SIGALRM now0 :: before ++ after)
         = (main_loop seconds ws (initial_state seconds lines)
              (SIGALRM now0 :: before)
              ++ main_loop seconds ws st after)%list
      /\ state_after seconds ws (initial_state seconds lines)
           (SIGALRM now0 :: before
              ++ SIGTSTP :: map SIGALRM nows ++ SIGINT :: after)
         = state_after seconds ws (initial_state seconds lines)
             (SIGALRM now0 :: before ++ after)).
Proof.
  intros Hst.
  pose proof (waiting_state_settled _ _ _ _ _ _ Hst) as Hs.
  assert (Hs' : settled ws (set_paused true st))
    by (destruct Hs as (p & Hp & H); now exists p).
  destruct (paused_tick_same seconds ws (set_paused true st) Hs' eq_refl)
    as (p & Hp & Hticks).
  assert (Hsame : forall now,
             continues (tick seconds ws (set_paused true st) now)
             = Some (set_paused true st))
    by (intros now; now rewrite Hticks).
  destruct (unchanging_ticks seconds ws (set_paused true st) nows
              (SIGINT :: after) Hsame) as [Hloop Hafter].
  assert (Hmain : main_loop seconds ws st
                    (SIGTSTP :: map SIGALRM nows ++ SIGINT :: after)
                  = (Handled (set_paused true st)
                       :: map (tick seconds ws (set_paused true st)) nows
                       ++ Handled (set_paused false st)
                       :: main_loop seconds ws (set_paused false st) after)%list).
  { change (main_loop seconds ws st
              (SIGTSTP :: map SIGALRM nows ++ SIGINT :: after))
      with (Handled (set_paused true st)
              :: main_loop seconds ws (set_paused true st)
                   (map SIGALRM nows ++ SIGINT :: after)).
    now rewrite Hloop. }
  assert (Hstate : state_after seconds ws st
                     (SIGTSTP :: map SIGALRM nows ++ SIGINT :: after)
                   = state_after seconds ws (set_paused false st) after).
  { change (state_after seconds ws st
              (SIGTSTP :: map SIGALRM nows ++ SIGINT :: after))
      with (state_after seconds ws (set_paused true st)
              (map SIGALRM nows ++ SIGINT :: after)).
    now rewrite Hafter. }
  split; [exists p; split; [exact Hp | exact Hticks]|].
  split; [exact Hmain|]. split; [exact Hstate|].
  split; [repeat split|].
  intros Hrun. pose proof (set_paused_same st Hrun) as E.
  split; [exact E|].
  change (SIGALRM now0 :: before
            ++ SIGTSTP :: map SIGALRM nows ++ SIGINT :: after)%list
    with ((SIGALRM now0 :: before)
            ++ SIGTSTP :: map SIGALRM nows ++ SIGINT :: after)%list.
  change (SIGALRM now0 :: before ++ after)%list
    with ((SIGALRM now0 :: before) ++ after)%list.
  rewrite (main_loop_app seconds ws (SIGALRM now0 :: before)
             (SIGTSTP :: map SIGALRM nows ++ SIGINT :: after) _ st Hst).
  rewrite (main_loop_app seconds ws (SIGALRM now0 :: before) after _ st Hst).
  rewrite (state_after_app seconds ws (SIGALRM now0 :: before)
             (SIGTSTP :: map SIGALRM nows ++ SIGINT :: after) _ st Hst).
  rewrite (state_after_app seconds ws (SIGALRM now0 :: before) after _ st Hst).
  rewrite Hmain, Hstate, E. repeat split; reflexivity.
Qed.

Lemma pause_resume_only_touches_paused_witness :
  state_after 5 narrow_ws (initial_state 5 sample_lines) [SIGALRM noon]
  = Some (unscrolled sample_lines false 4)
  /\ state_after 5 narrow_ws (unscrolled sample_lines false 4)
       [SIGTSTP; SIGALRM noon; SIGALRM noon; SIGINT; SIGALRM noon]
     = state_after 5 narrow_ws (unscrolled sample_lines false 4)
         [SIGALRM noon].
Proof.
  split; [reflexivity|].
  destruct (pause_resume_only_touches_paused 5 narrow_ws sample_lines noon
              [] (unscrolled sample_lines false 4) [noon; noon]
              [SIGALRM noon] eq_refl) as (_ & _ & H & _).
  exact H.
Defined.

(** ** The status bar *)



(** ** The empty store *)

(** C10, as the claim states it: on a terminal of one row the pagination
    loop is not entered, and a tick on the empty store reads no line and
    draws the status bar. *)
Lemma empty_store_one_row_renders :
  read_lines EmptyString EmptyString = []
  /\ tick 1 {| ws_row := 1; ws_col := 80 |}
       (initial_state 1 (read_lines EmptyString EmptyString)) noon
     = Rendered
         {| head := []; start_line_number := 1; display_and_exit := true;
            paused := false; time_to_scroll := 0 |}
         (clear_screen ++ ESC ++ "[1;1f" ++ "12:00:07 Lines: 1-0"
            ++ ESC ++ "[78G").
Proof. split; reflexivity. Qed.

(** C10, amended: on a terminal of at least two rows (a positive row
    budget) every render reads the front line of the store without a test
    for emptiness: on the empty store it dereferences NULL, and on a store
    that is not empty (with a positive width) it draws.  A file of zero
    lines gives the empty store, and its very first tick is such a
    dereference. *)
Theorem empty_store_dereferences_null (seconds : Z) (ws : winsize)
    (now : tm) :
  2 <= ws_row ws ->
  (forall st out,
      head st = [] -> render ws st now out = Undefined NullPointer)
  /\ (forall st out,
        head st <> [] -> ws_col ws <> 0 ->
        exists st' out', render ws st now out = Rendered st' out')
  /\ (forall st,
        head st = [] -> display_and_exit st = false ->
        tick seconds ws st now = Undefined NullPointer)
  /\ read_lines EmptyString EmptyString = []
  /\ tick seconds ws
       (initial_state seconds (read_lines EmptyString EmptyString)) now
     = Undefined NullPointer.
Proof.
  intros Hrow.
  assert (R : forall st out,
             head st = [] -> render ws st now out = Undefined NullPointer).
  { intros st out Hh. apply render_UB. rewrite Hh. simpl.
    destruct (0 <? ws_row ws - 1) eqn:E; [reflexivity|].
    apply Z.ltb_ge in E. lia. }
  assert (T : forall st,
             head st = [] -> display_and_exit st = false ->
             tick seconds ws st now = Undefined NullPointer).
  { intros st Hh Hd. unfold tick. rewrite Hd, Hh.
    destruct (negb (paused st)); [|now apply R].
    destruct (_ || _); [reflexivity | now apply R]. }
  split; [exact R|]. split; [|split; [exact T|split; [reflexivity|]]].
  - intros st out Hne Hc.
    destruct (print_text_defined ws (head st) 0 0 EmptyString Hne Hc)
      as [p Hp].
    rewrite (render_Ok ws st now out p Hp). eauto.
  - now apply T.
Qed.

Lemma empty_store_dereferences_null_witness :
  2 <= ws_row sample_ws
  /\ tick 1 sample_ws
       (initial_state 1 (read_lines EmptyString EmptyString)) noon
     = Undefined NullPointer.
Proof.
  split; [simpl; lia|].
  apply (empty_store_dereferences_null 1 sample_ws noon). simpl; lia.
Defined.

(** ** A file that fits in the first frame *)

Section ShortFile.

Variables (seconds : Z) (ws : winsize) (lines : list Line).

Hypothesis columns : 0 < ws_col ws.
Hypothesis getline_lengths : Forall (fun l => 1 <= length l) lines.
Hypothesis not_empty : lines <> [].
Hypothesis fits : frame_rows ws lines < ws_row ws - 1.

Lemma frame_rows_nonneg (frame : list Line) :
  Forall (fun l => 1 <= length l) frame -> 0 <= frame_rows ws frame.
Proof.
  induction 1 as [|l frame Hl _ IH]; simpl; [lia|].
  pose proof (rows_of_pos ws l columns Hl). lia.
Qed.

(** When the rest of the file fits in the rows that remain, the loop
    prints all of it and stops on NULL. *)
Lemma print_text_all (walker : list Line) :
  forall printed physical out,
    Forall (fun l => 1 <= length l) walker ->
    walker <> [] ->
    physical + frame_rows ws walker <= ws_row ws - 1 ->
    print_text ws walker printed physical out
    = Ok {| line_walker := [];
            lines_printed := printed + Z.of_nat (List.length walker);
            physical_lines_printed := physical + frame_rows ws walker;
            text := out ++ frame_text walker |}.
Proof.
  induction walker as [|l next IH]; intros printed physical out Hlen Hne Hfit;
    [contradiction|].
  inversion Hlen as [|? ? Hl Hnext]; subst.
  pose proof (rows_of_pos ws l columns Hl) as Hrows.
  pose proof (frame_rows_nonneg next Hnext) as Hrest.
  simpl in Hfit. cbn [print_text].
  destruct (physical <? ws_row ws - 1) eqn:E1;
    [|apply Z.ltb_ge in E1; lia].
  rewrite (rows_needed_defined ws l ltac:(lia)).
  destruct (physical + rows_of ws l <=? ws_row ws - 1) eqn:E2;
    [|apply Z.leb_gt in E2; lia].
  destruct next as [|l' next'].
  - simpl. rewrite append_empty_r. f_equal. f_equal; lia.
  - rewrite IH; [|assumption|discriminate|simpl in *; lia].
    cbn [frame_rows frame_text List.length]. rewrite append_assoc.
    f_equal. f_equal; lia.
Qed.

(** A render before any scroll shows all of the file and latches
    [display_and_exit]. *)
Lemma render_whole (st : State) (now : tm) :
  head st = lines -> start_line_number st = 1 ->
  render ws st now clear_screen
  = Rendered (set_display_and_exit true st) (whole_frame ws lines now).
Proof.
  intros Hh Hs.
  pose proof (print_text_all lines 0 0 EmptyString getline_lengths
                not_empty ltac:(lia)) as H.
  rewrite <- Hh in H at 1.
  rewrite (render_Ok ws st now clear_screen _ H).
  unfold first_frame_is_whole, whole_frame.
  cbn [line_walker lines_printed text]. rewrite Hs.
  change (1 =? 1) with true. cbn [andb].
  change (EmptyString ++ frame_text lines) with (frame_text lines).
  now replace (1 + (0 + Z.of_nat (List.length lines)) - 1)
    with (Z.of_nat (List.length lines)) by lia.
Qed.

(** A tick while the countdown still runs. *)
Lemma tick_counting (d : bool) (t : Z) (now : tm) :
  1 <= t ->
  tick seconds ws (unscrolled lines d t) now
  = Rendered (unscrolled lines true (t - 1)) (whole_frame ws lines now).
Proof.
  intros Ht. unfold tick.
  cbn [paused unscrolled negb start_line_number time_to_scroll].
  replace (1 >? 1) with false by reflexivity. rewrite andb_false_r.
  cbn [orb].
  destruct (t - 1 =? -1) eqn:E; [apply Z.eqb_eq in E; lia|].
  change (set_time_to_scroll (t - 1) (unscrolled lines d t))
    with (unscrolled lines d (t - 1)).
  now rewrite (render_whole (unscrolled lines d (t - 1)) now eq_refl eq_refl).
Qed.

(** One iteration keeps the run unscrolled. *)
Lemma handle_unscrolled (st : State) (sig : signal) :
  counting_or_latched lines st ->
  shows_whole_file ws lines (handle seconds ws st sig)
  /\ forall st',
       continues (handle seconds ws st sig) = Some st' ->
       counting_or_latched lines st'.
Proof.
  intros (Hh & Hs & Ht & Hd).
  destruct sig as [now| | | |signo]; simpl.
  - unfold tick. destruct (negb (paused st)).
    + rewrite Hs. replace (1 >? 1) with false by reflexivity.
      rewrite andb_false_r. simpl.
      destruct (time_to_scroll st - 1 =? -1) eqn:E.
      * apply Z.eqb_eq in E.
        destruct Hd as [Hd|Hd]; [|lia]. rewrite Hd. simpl.
        split; [auto | discriminate].
      * apply Z.eqb_neq in E.
        rewrite (render_whole (set_time_to_scroll _ st) now Hh Hs). simpl.
        split; [repeat split; eauto|].
        intros st' [= <-]. unfold counting_or_latched. simpl.
        repeat split; auto. lia.
    + rewrite (render_whole st now Hh Hs). simpl.
      split; [repeat split; eauto|].
      intros st' [= <-]. unfold counting_or_latched. simpl.
      repeat split; auto.
  - split; [auto|]. intros st' [= <-]. red. simpl. auto.
  - split; [auto|]. intros st' [= <-]. red. simpl. auto.
  - split; [reflexivity | discriminate].
  - split; [reflexivity | discriminate].
Qed.

Lemma main_loop_unscrolled (sigs : list signal) :
  forall st,
    counting_or_latched lines st ->
    Forall (shows_whole_file ws lines) (main_loop seconds ws st sigs).
Proof.
  induction sigs as [|sig sigs IH]; intros st Hst; simpl; [constructor|].
  destruct (handle_unscrolled st sig Hst) as [Hr Hnext].
  constructor; [exact Hr|].
  destruct (handle seconds ws st sig) as [s o|s|s o|c o e|u];
    simpl in *.
  - apply IH. now apply Hnext.
  - apply IH. now apply Hnext.
  - constructor; [reflexivity | constructor].
  - constructor.
  - constructor.
Qed.

(** Ticks only: one render per second of the countdown, then the
    self-raised SIGQUIT and the exit. *)
Lemma main_loop_countdown (nows : list tm) (last_now : tm) :
  forall d t,
    t = Z.of_nat (List.length nows) ->
    d = true \/ nows <> [] ->
    main_loop seconds ws (unscrolled lines d t)
      (map SIGALRM (nows ++ [last_now]))
    = (countdown_renders ws lines t nows
         ++ [RaisedSIGQUIT (unscrolled lines true (-1)) clear_screen;
             Exited EXIT_SUCCESS clear_screen EmptyString])%list.
Proof.
  induction nows as [|now nows IH]; intros d t Ht Hd.
  - destruct Hd as [->|Hd]; [|contradiction]. subst t. reflexivity.
  - cbn [app map main_loop handle]. unfold tick.
    cbn [paused unscrolled negb start_line_number time_to_scroll].
    replace (1 >? 1) with false by reflexivity. rewrite andb_false_r.
    cbn [orb]. simpl List.length in Ht.
    destruct (t - 1 =? -1) eqn:E; [apply Z.eqb_eq in E; lia|].
    change (set_time_to_scroll (t - 1) (unscrolled lines d t))
      with (unscrolled lines d (t - 1)).
    rewrite (render_whole (unscrolled lines d (t - 1)) now eq_refl eq_refl).
    change (set_display_and_exit true (unscrolled lines d (t - 1)))
      with (unscrolled lines true (t - 1)).
    cbn [countdown_renders app]. f_equal.
    apply IH; [lia | now left].
Qed.

Lemma count_countdown_renders (t : Z) (nows : list tm)
    (tail : list step_result) :
  count_renders (countdown_renders ws lines t nows ++ tail)
  = (List.length nows + count_renders tail)%nat.
Proof.
  revert t. induction nows as [|now nows IH]; intros t; [reflexivity|].
  unfold count_renders in *. simpl. now rewrite IH.
Qed.

End ShortFile.

(** C1, as the claim states it: with an interval of 2 seconds a file of three
    short lines on a 10 by 80 terminal is rendered twice before the viewer
    terminates. *)
Lemma short_file_rendered_twice :
  frame_rows sample_ws (read_lines sample_file EmptyString)
  < ws_row sample_ws - 1
  /\ main_loop 2 sample_ws
       (initial_state 2 (read_lines sample_file EmptyString))
       [SIGALRM noon; SIGALRM noon; SIGALRM noon]
     = [Rendered (unscrolled sample_lines true 1)
          (whole_frame sample_ws sample_lines noon);
        Rendered (unscrolled sample_lines true 0)
          (whole_frame sample_ws sample_lines noon);
        RaisedSIGQUIT (unscrolled sample_lines true (-1)) clear_screen;
        Exited EXIT_SUCCESS clear_screen EmptyString]
  /\ count_renders
       (main_loop 2 sample_ws
          (initial_state 2 (read_lines sample_file EmptyString))
          [SIGALRM noon; SIGALRM noon; SIGALRM noon])
     = 2%nat.
Proof. repeat split. Qed.

(** C1, amended: for a file of at least one line whose lines all fit in the
    first frame without filling the screen, the first tick shows the whole
    file and marks display-and-exit; whatever signals arrive, every render
    shows the whole file from line 1 and no scroll event ever happens; and
    when only ticks arrive, the file is rendered once per second of the
    interval ([seconds] times: exactly once with the default interval of 1),
    after which the viewer raises SIGQUIT and exits with success. *)
Theorem short_file_shown_then_exit (seconds : Z) (ws : winsize)
    (file : string) :
  1 <= seconds ->
  0 < ws_col ws ->
  read_lines file EmptyString <> [] ->
  frame_rows ws (read_lines file EmptyString) < ws_row ws - 1 ->
  (forall now,
      tick seconds ws (initial_state seconds (read_lines file EmptyString)) now
      = Rendered (unscrolled (read_lines file EmptyString) true (seconds - 1))
          (whole_frame ws (read_lines file EmptyString) now))
  /\ (forall sigs,
        Forall (shows_whole_file ws (read_lines file EmptyString))
          (main_loop seconds ws
             (initial_state seconds (read_lines file EmptyString)) sigs))
  /\ (forall nows last_now,
        List.length nows = Z.to_nat seconds ->
        main_loop seconds ws
          (initial_state seconds (read_lines file EmptyString))
          (map SIGALRM (nows ++ [last_now]))
        = (countdown_renders ws (read_lines file EmptyString) seconds nows
             ++ [RaisedSIGQUIT
                   (unscrolled (read_lines file EmptyString) true (-1))
                   clear_screen;
                 Exited EXIT_SUCCESS clear_screen EmptyString])%list
        /\ count_renders
             (main_loop seconds ws
                (initial_state seconds (read_lines file EmptyString))
                (map SIGALRM (nows ++ [last_now])))
           = Z.to_nat seconds).
Proof.
  intros Hs Hc Hne Hfit.
  assert (Hlen : Forall (fun l => 1 <= length l) (read_lines file EmptyString)).
  { eapply Forall_impl; [|apply read_lines_length]. now intros l [H _]. }
  split; [|split].
  - intros now. now apply tick_counting.
  - intros sigs. apply main_loop_unscrolled; try assumption.
    repeat split; simpl; lia.
  - intros nows last_now Hn.
    assert (E : main_loop seconds ws
                  (initial_state seconds (read_lines file EmptyString))
                  (map SIGALRM (nows ++ [last_now]))
                = (countdown_renders ws (read_lines file EmptyString) seconds
                     nows
                     ++ [RaisedSIGQUIT
                           (unscrolled (read_lines file EmptyString) true (-1))
                           clear_screen;
                         Exited EXIT_SUCCESS clear_screen EmptyString])%list).
    { apply (main_loop_countdown seconds ws (read_lines file EmptyString)
               Hc Hlen Hne Hfit nows last_now false seconds); [lia|].
      right. intros ->. simpl in Hn. lia. }
    split; [exact E|]. rewrite E, count_countdown_renders.
    unfold count_renders. simpl. lia.
Qed.

Lemma short_file_shown_then_exit_witness :
  1 <= 1
  /\ 0 < ws_col sample_ws
  /\ read_lines sample_file EmptyString <> []
  /\ frame_rows sample_ws (read_lines sample_file EmptyString)
     < ws_row sample_ws - 1
  /\ forall now,
       tick 1 sample_ws
         (initial_state 1 (read_lines sample_file EmptyString)) now
       = Rendered (unscrolled (read_lines sample_file EmptyString) true (1 - 1))
           (whole_frame sample_ws (read_lines sample_file EmptyString) now).
Proof.
  split; [lia|]. split; [reflexivity|]. split; [discriminate|].
  split; [reflexivity|].
  apply (short_file_shown_then_exit 1 sample_ws sample_file);
    [lia | reflexivity | discriminate | reflexivity].
Defined.

(** ** The command line *)

Lemma substring_skip (pre s : string) (m : nat) :
  substring (String.length pre) m (pre ++ s) = substring 0 m s.
Proof. induction pre as [|c pre IH]; simpl; [reflexivity | exact IH]. Qed.

Lemma substring_all (s : string) : substring 0 (String.length s) s = s.
Proof. induction s as [|c s IH]; simpl; [reflexivity | now rewrite IH]. Qed.

Lemma ends_with_app (suffix pre : string) :
  ends_with suffix (pre ++ suffix) = true.
Proof.
  unfold ends_with. rewrite length_append.
  replace (String.length pre + String.length suffix - String.length suffix)%nat
    with (String.length pre) by lia.
  rewrite substring_skip, substring_all, String.eqb_refl, andb_true_r.
  apply Nat.leb_le. lia.
Qed.

Lemma getopt_loop_operand (argv0 a : string) (rest : list string)
    (s_value : option string) :
  is_operand a = true ->
  getopt_loop argv0 (a :: rest) s_value = OptionsDone s_value (a :: rest).
Proof.
  intros H. cbn [getopt_loop].
  destruct a as [|dash [|c optrest]]; simpl in H |- *.
  - reflexivity.
  - now destruct (dash =? "-")%char.
  - apply negb_true_iff in H. now rewrite H.
Qed.

(** The three ways in which the option loop exits. *)
Lemma getopt_loop_fatal (argv0 : string) :
  forall n args,
    (List.length args <= n)%nat ->
    forall s_value msg,
      getopt_loop argv0 args s_value = OptionsFatal msg ->
      msg = msg_duplicate argv0
      \/ (exists c, msg = msg_missing_argument c argv0)
      \/ (exists c, msg = msg_unknown_option c argv0).
Proof.
  induction n as [|n IH]; intros [|a rest] Hlen s_value msg H;
    simpl in Hlen; try lia; cbn [getopt_loop] in H; try discriminate.
  destruct (a =? "--")%string; [discriminate|].
  destruct a as [|dash [|c optrest]]; try discriminate.
  destruct (dash =? "-")%char; [|discriminate].
  destruct (c =? "s")%char; [|injection H as <-; eauto].
  destruct optrest as [|o optrest].
  - destruct rest as [|optarg rest']; [injection H as <-; eauto|].
    destruct s_value; [injection H as <-; auto|].
    apply IH in H; [exact H | simpl in Hlen; lia].
  - destruct s_value; [injection H as <-; auto|].
    apply IH in H; [exact H | lia].
Qed.

(** An unknown option is fatal wherever the loop meets it. *)
Lemma getopt_loop_unknown (argv0 w : string) (c : ascii) (rest : list string)
    (s_value : option string) :
  unknown_word c w ->
  getopt_loop argv0 (w :: rest) s_value
  = OptionsFatal (msg_unknown_option c argv0).
Proof.
  intros (Hc & Hdd & r & ->). cbn [getopt_loop].
  destruct (String.eqb_spec (String "-" (String c r)) "--") as [E|_];
    [contradiction|].
  change ("-" =? "-")%char with true. cbv iota.
  destruct (Ascii.eqb_spec c "s") as [E|_]; [contradiction | reflexivity].
Qed.

(** How a command line begins. *)
Lemma first_word (args : list string) :
  args = []
  \/ args = ["--"]
  \/ args = ["-s"]
  \/ (exists path, file_words path args)
  \/ (exists c w rest, unknown_word c w /\ args = w :: rest)
  \/ (exists v option rest,
        s_option v option /\ args = (option ++ rest)%list).
Proof.
  destruct args as [|a rest]; [now left|].
  destruct (String.eqb_spec a "--") as [->|Hdd].
  - destruct rest as [|p others]; [right; now left|].
    right; right; right; left. exists p. right. now exists others.
  - destruct (is_operand a) eqn:Hop.
    + right; right; right; left. exists a. left. split; [exact Hop|].
      now exists rest.
    + destruct a as [|dash [|c r]]; try discriminate. simpl in Hop.
      apply negb_false_iff in Hop. apply Ascii.eqb_eq in Hop. subst dash.
      destruct (Ascii.eqb_spec c "s") as [->|Hc].
      * destruct r as [|c' r'].
        -- destruct rest as [|v rest']; [right; right; now left|].
           do 5 right. exists v, ["-s"; v], rest'. split; [now left|reflexivity].
        -- do 5 right.
           exists (String c' r'), [String "-" (String "s" (String c' r'))], rest.
           split; [right; split; [discriminate|reflexivity] | reflexivity].
      * do 4 right; left. exists c, (String "-" (String c r)), rest.
        split; [|reflexivity]. split; [exact Hc|]. split; [exact Hdd|].
        now exists r.
Qed.

Lemma int_of_long_small (v : Z) :
  INT_MIN <= v <= INT_MAX -> int_of_long v = v.
Proof.
  unfold INT_MIN, INT_MAX, int_of_long. intros H.
  rewrite Z.mod_small; lia.
Qed.

Lemma usage_duplicate (argv0 : string) :
  shows_usage argv0 (msg_duplicate argv0) = true.
Proof. exact (ends_with_app (USAGE argv0) ("Duplicate values for -s" ++ nl)). Qed.

Lemma usage_missing_argument (c : ascii) (argv0 : string) :
  shows_usage argv0 (msg_missing_argument c argv0) = true.
Proof.
  exact (ends_with_app (USAGE argv0)
           ("Missing argument for " ++ fmt_c c ++ nl)).
Qed.

Lemma usage_unknown_option (c : ascii) (argv0 : string) :
  shows_usage argv0 (msg_unknown_option c argv0) = true.
Proof.
  exact (ends_with_app (USAGE argv0) ("Unknown option: " ++ fmt_c c ++ nl)).
Qed.

Lemma usage_no_file (argv0 : string) :
  shows_usage argv0 (msg_no_file argv0) = true.
Proof. exact (ends_with_app (USAGE argv0) ("File path not provided." ++ nl)). Qed.

Lemma usage_non_integer (argv0 : string) :
  shows_usage argv0 (msg_non_integer argv0) = true.
Proof.
  exact (ends_with_app (USAGE argv0)
           ("Non-integer seconds was supplied." ++ nl)).
Qed.

Lemma usage_seconds_range (argv0 : string) :
  shows_usage argv0 (msg_seconds_range argv0) = true.
Proof.
  exact (ends_with_app (USAGE argv0)
           ("Seconds must be a positive integer less than 60." ++ nl)).
Qed.

Lemma command_line_fatal (argv0 after_s after_path : string)
    (args : list string) (msg : string) :
  command_line_processing argv0 after_s after_path args = Fatal msg ->
  msg = msg_strtol \/ shows_usage argv0 msg = true.
Proof.
  unfold command_line_processing.
  destruct (getopt_loop argv0 args None) as [s_value operands|m] eqn:G.
  - destruct operands as [|file operands].
    + intros [= <-]. right. apply usage_no_file.
    + unfold extract_seconds. destruct s_value as [v|]; [|discriminate].
      destruct (erange (strtol (v ++ after_s))); [intros [= <-]; now left|].
      destruct (negb _); [intros [= <-]; right; apply usage_non_integer|].
      destruct (_ || _); [|discriminate].
      intros [= <-]. right. apply usage_seconds_range.
  - intros [= <-]. right.
    destruct (getopt_loop_fatal argv0 _ args (le_n _) _ _ G)
      as [->|[[c ->]|[c ->]]].
    + apply usage_duplicate.
    + apply usage_missing_argument.
    + apply usage_unknown_option.
Qed.

(** What the conversion of the [long] to [int] lets through: 2^32 + 1 is
    taken for 1. *)
Remark seconds_beyond_int_accepted :
  command_line_processing "autoscroll" EmptyString EmptyString
    ["-s"; "4294967297"; "file"]
  = Parsed 1 "file".
Proof. reflexivity. Qed.

(** What the missing terminator of the copy lets through: the same argument
    of -s is accepted when a NUL follows its copy and refused when the byte
    that follows is, say, an exclamation mark; and the name given to [fopen]
    is the path with the bytes that follow its copy. *)
Remark unterminated_copies :
  command_line_processing "autoscroll" EmptyString EmptyString
    ["-s"; "000000000000000000000005"; "file"]
  = Parsed 5 "file"
  /\ command_line_processing "autoscroll" "!" EmptyString
       ["-s"; "000000000000000000000005"; "file"]
     = Fatal (msg_non_integer "autoscroll")
  /\ command_line_processing "autoscroll" EmptyString "!"
       ["-s"; "5"; "file"]
     = Parsed 5 "file!".
Proof. repeat split; reflexivity. Qed.

(** The options end at the first file name: what follows it is not looked
    at, so an -s after the file name leaves the interval at its default. *)
Remark option_after_file_name_ignored :
  command_line_processing "autoscroll" EmptyString EmptyString
    ["notes.txt"; "-s"; "5"]
  = Parsed 1 "notes.txt"
  /\ command_line_processing "autoscroll" EmptyString EmptyString
       ["notes.txt"; "-x"]
     = Parsed 1 "notes.txt".
Proof. split; reflexivity. Qed.

(** C8, as the claim states it: a value of -s beyond the range of [long]
    is fatal, but with the [perror] text of [strtol] and without the usage
    message. *)
Lemma strtol_overflow_fatal_without_usage :
  command_line_processing "autoscroll" EmptyString EmptyString
    ["-s"; "99999999999999999999"; "file"]
  = Fatal msg_strtol
  /\ shows_usage "autoscroll" msg_strtol = false.
Proof. split; reflexivity. Qed.

(** C8, amended.  The options come before the file name, -s with its value
    in the same word or in the next one ([s_option]), and the file name is
    the first word that is not an option or the word after [--]
    ([file_words]).  -s takes an integer in [1,59] and its absence gives 1;
    every result of the command line has its seconds in [1,59].  With the
    options read so far being none or one -s ([option_prefix]): the end of
    the command line, or a lone [--] at its end, is fatal (no file path);
    a value that [strtol] does not read to its end is fatal (non-integer);
    a value that fits an [int] and is outside [1,59], such as 0 or 60, is
    fatal (range); a second -s is fatal whatever follows it; an unknown
    option is fatal whatever follows it; -s as the last word is fatal
    (missing argument); each of these with its message followed by the usage
    text.  A value that overflows [long] is fatal with the [perror] text of
    [strtol] instead of the usage text.  Every command line has one of these
    shapes, every fatal message of the command line is one of these, the
    exit status is [EXIT_FAILURE], which is not 0, and no file has been
    opened.  The value is judged by the text [strtol] reads, which is the
    argument when a NUL follows its copy. *)
Theorem argument_errors_are_fatal (argv0 after_s after_path : string) :
  (forall n option path words,
      1 <= n <= 59 -> after_s = EmptyString ->
      s_option (fmt_d n) option -> file_words path words ->
      command_line_processing argv0 after_s after_path (option ++ words)
      = Parsed n (path ++ after_path))
  /\ (forall path words,
        file_words path words ->
        command_line_processing argv0 after_s after_path words
        = Parsed 1 (path ++ after_path))
  /\ (forall args seconds path,
        command_line_processing argv0 after_s after_path args
        = Parsed seconds path ->
        1 <= seconds <= 59)
  /\ (forall pre s_value,
        option_prefix pre s_value ->
        command_line_processing argv0 after_s after_path pre
        = Fatal (msg_no_file argv0)
        /\ command_line_processing argv0 after_s after_path (pre ++ ["--"])
           = Fatal (msg_no_file argv0))
  /\ (forall v option path words,
        s_option v option -> file_words path words ->
        erange (strtol (v ++ after_s)) = false ->
        end_ptr (strtol (v ++ after_s)) <> EmptyString ->
        command_line_processing argv0 after_s after_path (option ++ words)
        = Fatal (msg_non_integer argv0))
  /\ (forall v option path words,
        s_option v option -> file_words path words ->
        erange (strtol (v ++ after_s)) = false ->
        end_ptr (strtol (v ++ after_s)) = EmptyString ->
        INT_MIN <= value (strtol (v ++ after_s)) <= INT_MAX ->
        value (strtol (v ++ after_s)) < 1
        \/ 59 < value (strtol (v ++ after_s)) ->
        command_line_processing argv0 after_s after_path (option ++ words)
        = Fatal (msg_seconds_range argv0))
  /\ (forall v option path words,
        s_option v option -> file_words path words ->
        erange (strtol (v ++ after_s)) = true ->
        command_line_processing argv0 after_s after_path (option ++ words)
        = Fatal msg_strtol)
  /\ (forall v1 option1 v2 option2 rest,
        s_option v1 option1 -> s_option v2 option2 ->
        command_line_processing argv0 after_s after_path
          (option1 ++ option2 ++ rest)
        = Fatal (msg_duplicate argv0))
  /\ (forall pre s_value c w rest,
        option_prefix pre s_value -> unknown_word c w ->
        command_line_processing argv0 after_s after_path (pre ++ w :: rest)
        = Fatal (msg_unknown_option c argv0))
  /\ (forall pre s_value,
        option_prefix pre s_value ->
        command_line_processing argv0 after_s after_path (pre ++ ["-s"])
        = Fatal (msg_missing_argument "s" argv0))
  /\ (forall args,
        (exists pre s_value,
            option_prefix pre s_value
            /\ ((exists path words,
                    file_words path words /\ args = (pre ++ words)%list)
                \/ args = pre
                \/ args = (pre ++ ["--"])%list
                \/ args = (pre ++ ["-s"])%list
                \/ (exists c w rest,
                      unknown_word c w /\ args = (pre ++ w :: rest)%list)))
        \/ (exists v1 option1 v2 option2 rest,
              s_option v1 option1 /\ s_option v2 option2
              /\ args = (option1 ++ option2 ++ rest)%list))
  /\ (forall args msg,
        command_line_processing argv0 after_s after_path args = Fatal msg ->
        msg = msg_strtol \/ shows_usage argv0 msg = true)
  /\ (forall env args msg,
        isatty env = true ->
        command_line_processing argv0 (after_s_value env)
          (after_file_path env) args = Fatal msg ->
        main env argv0 args = SetupFailed msg []
        /\ exit_status (main env argv0 args) = Some EXIT_FAILURE
        /\ EXIT_FAILURE <> 0
        /\ opened_files (main env argv0 args) = []).
Proof.
  assert (Hs : forall v option, s_option v option ->
                 option_prefix option (Some v))
    by (intros v option H; right; eauto).
  repeat match goal with |- _ /\ _ => split end.
  - intros n option path words Hn -> Ho Hf.
    rewrite (command_line_with_file argv0 EmptyString after_path path
               option words (Some (fmt_d n)) (Hs _ _ Ho) Hf).
    now rewrite extract_seconds_decimal.
  - intros path words Hf.
    exact (command_line_with_file argv0 after_s after_path path [] words None
             (or_introl (conj eq_refl eq_refl)) Hf).
  - intros args seconds path H.
    destruct (command_line_seconds _ _ _ _ _ _ H) as (sv & f & ops & _ & _ & He).
    exact (extract_seconds_range _ _ _ _ He).
  - intros pre s_value Hpre. unfold command_line_processing.
    rewrite <- (app_nil_r pre) at 1.
    now rewrite !(getopt_loop_prefix argv0 pre _ s_value Hpre).
  - intros v option path words Ho Hf He Hend.
    rewrite (command_line_with_file argv0 after_s after_path path
               option words (Some v) (Hs _ _ Ho) Hf).
    unfold extract_seconds. rewrite He.
    destruct (end_ptr (strtol (v ++ after_s)) =? "")%string eqn:E;
      [|reflexivity].
    apply String.eqb_eq in E. contradiction.
  - intros v option path words Ho Hf He Hend Hint Hrange.
    rewrite (command_line_with_file argv0 after_s after_path path
               option words (Some v) (Hs _ _ Ho) Hf).
    unfold extract_seconds. rewrite He, Hend, (int_of_long_small _ Hint).
    simpl negb. cbv iota.
    destruct ((value (strtol (v ++ after_s)) <? 1)
              || (value (strtol (v ++ after_s)) >? 59)) eqn:E;
      [reflexivity|].
    apply orb_false_iff in E. destruct E as [E1 E2].
    apply Z.ltb_ge in E1. rewrite Z.gtb_ltb in E2. apply Z.ltb_ge in E2. lia.
  - intros v option path words Ho Hf He.
    rewrite (command_line_with_file argv0 after_s after_path path
               option words (Some v) (Hs _ _ Ho) Hf).
    unfold extract_seconds. now rewrite He.
  - intros v1 option1 v2 option2 rest H1 H2. unfold command_line_processing.
    destruct (getopt_loop_s argv0 v1 option1 (option2 ++ rest) H1) as [-> _].
    destruct (getopt_loop_s argv0 v2 option2 rest H2) as [_ ->].
    reflexivity.
  - intros pre s_value c w rest Hpre Hw. unfold command_line_processing.
    rewrite (getopt_loop_prefix argv0 pre _ s_value Hpre).
    now rewrite (getopt_loop_unknown argv0 w c rest s_value Hw).
  - intros pre s_value Hpre. unfold command_line_processing.
    now rewrite (getopt_loop_prefix argv0 pre _ s_value Hpre).
  - intros args.
    destruct (first_word args)
      as [->|[->|[->|[[path Hf]|[(c & w & rest & Hw & ->)
                                |(v & option & rest & Ho & ->)]]]]].
    + left. exists [], None. split; [now left|]. right. now left.
    + left. exists [], None. split; [now left|]. right. right. now left.
    + left. exists [], None. split; [now left|]. do 3 right. now left.
    + left. exists [], None. split; [now left|]. left. now exists path, args.
    + left. exists [], None. split; [now left|]. do 4 right.
      now exists c, w, rest.
    + destruct (first_word rest)
        as [->|[->|[->|[[path Hf]|[(c & w & rest' & Hw & ->)
                                  |(v' & option' & rest' & Ho' & ->)]]]]].
      * left. exists option, (Some v). split; [now apply Hs|].
        right. left. apply app_nil_r.
      * left. exists option, (Some v). split; [now apply Hs|].
        right. right. now left.
      * left. exists option, (Some v). split; [now apply Hs|].
        do 3 right. now left.
      * left. exists option, (Some v). split; [now apply Hs|].
        left. now exists path, rest.
      * left. exists option, (Some v). split; [now apply Hs|].
        do 4 right. now exists c, w, rest'.
      * right. now exists v, option, v', option', rest'.
  - apply command_line_fatal.
  - intros env args msg Htty H. unfold main. rewrite Htty, H. simpl.
    repeat split. discriminate.
Qed.

Lemma argument_errors_are_fatal_witness :
  command_line_processing "autoscroll" EmptyString EmptyString
    ["-s"; "0"; "file"]
  = Fatal (msg_seconds_range "autoscroll")
  /\ command_line_processing "autoscroll" EmptyString EmptyString
       ["-s60"; "--"; "file"]
     = Fatal (msg_seconds_range "autoscroll")
  /\ command_line_processing "autoscroll" EmptyString EmptyString
       ["-s"; "59"; "file"]
     = Parsed 59 "file".
Proof.
  destruct (argument_errors_are_fatal "autoscroll" EmptyString EmptyString)
    as (Haccept & _ & _ & _ & _ & Hrange & _).
  split; [|split].
  - apply (Hrange "0" ["-s"; "0"] "file" ["file"]); try reflexivity.
    + now left.
    + left. split; [reflexivity | now exists []].
    + cbv. split; discriminate.
    + left. reflexivity.
  - apply (Hrange "60" ["-s60"] "file" ["--"; "file"]); try reflexivity.
    + right. split; [discriminate | reflexivity].
    + right. now exists [].
    + cbv. split; discriminate.
    + right. reflexivity.
  - apply (Haccept 59 ["-s"; "59"] "file" ["file"]);
      [lia | reflexivity | now left
      | left; split; [reflexivity | now exists []]].
Defined.

(** * Further properties of the program *)

(** ** The line store built by the [getline] loop *)

Lemma read_lines_text (file : string) :
  forall current, frame_text (read_lines file current) = current ++ file.
Proof.
  induction file as [|c file IH]; intros current; simpl.
  - destruct current; simpl; [reflexivity|]. now rewrite !append_empty_r.
  - destruct (Ascii.eqb c newline) eqn:E.
    + apply Ascii.eqb_eq in E. subst c. simpl. rewrite IH. simpl.
      now rewrite append_assoc.
    + rewrite IH, append_assoc. reflexivity.
Qed.

Lemma newline_free_snoc (s : string) (c : ascii) :
  newline_free s = true -> Ascii.eqb c newline = false ->
  newline_free (s ++ String c EmptyString) = true.
Proof.
  intros Hs Hc. induction s as [|x s IH]; simpl in *.
  - now rewrite Hc.
  - apply andb_true_iff in Hs. destruct Hs as [Hx Hs].
    now rewrite Hx, IH.
Qed.

Lemma read_lines_shaped (file : string) :
  forall current,
    newline_free current = true ->
    getline_shaped (read_lines file current).
Proof.
  induction file as [|c file IH]; intros current Hc; simpl.
  - destruct current as [|x current]; simpl; [exact I|].
    repeat split. right. split; [reflexivity|]. split; [exact Hc|discriminate].
  - destruct (Ascii.eqb c newline) eqn:E.
    + simpl. repeat split; [|now apply IH].
      left. now exists current.
    + apply IH. now apply newline_free_snoc.
Qed.

(** X1: the store holds the bytes of the file, in order and nothing else: the
    texts of its lines, put end to end, are the file; an empty file, and only
    an empty file, gives the empty store. *)
Theorem store_holds_the_file (file : string) :
  frame_text (read_lines file EmptyString) = file
  /\ (read_lines file EmptyString = [] <-> file = EmptyString).
Proof.
  pose proof (read_lines_text file EmptyString) as H. simpl in H.
  split; [exact H|]. split.
  - intros E. rewrite E in H. simpl in H. now symmetry.
  - now intros ->.
Qed.

(** X2: every node of the store holds one line as [getline] returns it: its
    [length] is the number of characters of its text and is at least 1; the
    text ends with a newline and holds no other, except that the last line
    of the file may end without a newline (and then holds none). *)
Theorem store_lines_are_getline_lines (file : string) :
  getline_shaped (read_lines file EmptyString)
  /\ Forall (fun l => 1 <= length l
                      /\ length l = Z.of_nat (String.length (content l)))
       (read_lines file EmptyString).
Proof.
  split; [now apply read_lines_shaped | apply read_lines_length].
Qed.

Lemma read_lines_terminated (file : string) :
  forall current,
    newline_free current = true ->
    ends_in_newline file = true ->
    Forall terminated (read_lines file current).
Proof.
  induction file as [|c file IH]; intros current Hc He; [discriminate|].
  simpl. destruct (Ascii.eqb c newline) eqn:E.
  - constructor; [now exists current|].
    destruct file as [|c' file']; [constructor|].
    apply IH; [reflexivity | exact He].
  - destruct file as [|c' file']; [simpl in He; congruence|].
    apply IH; [now apply newline_free_snoc | exact He].
Qed.

Lemma getline_shaped_middle (before : list Line) :
  forall l after,
    getline_shaped (before ++ l :: after) ->
    length l = Z.of_nat (String.length (content l))
    /\ (terminated l \/ (after = [] /\ unterminated l)).
Proof.
  induction before as [|b before IH]; intros l after H; simpl in H.
  - destruct H as (H1 & H2 & _). auto.
  - destruct H as (_ & _ & H). now apply IH.
Qed.

(** X3: the rows charged to a line of the store are the ceiling of its visible
    characters over the columns, and 1 for a bare newline, for every line
    that is not the last one of the file, and for the last one too when the
    file ends with a newline. *)
Theorem rows_of_terminated_lines (ws : winsize) (file : string)
    (before : list Line) (l : Line) (after : list Line) :
  0 < ws_col ws ->
  read_lines file EmptyString = (before ++ l :: after)%list ->
  after <> [] \/ ends_in_newline file = true ->
  visible_character_count l = length l - 1
  /\ rows_needed ws l
     = Ok (if visible_character_count l =? 0 then 1
           else ceil_quot (visible_character_count l) (ws_col ws)).
Proof.
  intros Hc Hl Hlast.
  pose proof (read_lines_shaped file EmptyString eq_refl) as Hs.
  rewrite Hl in Hs. apply getline_shaped_middle in Hs.
  destruct Hs as [Hlen Hshape].
  assert (Ht : terminated l).
  { destruct Hshape as [Ht|[Ha Hu]]; [exact Ht|].
    destruct Hlast as [Hne|He]; [contradiction|].
    pose proof (read_lines_terminated file EmptyString eq_refl He) as Hall.
    rewrite Hl in Hall. apply Forall_app in Hall.
    destruct Hall as [_ Hall]. now inversion Hall. }
  destruct Ht as (body & _ & Hbody).
  now apply (rows_needed_newline_terminated ws l body).
Qed.

Lemma rows_of_terminated_lines_witness :
  0 < ws_col sample_ws
  /\ ends_in_newline sample_file = true
  /\ rows_needed sample_ws
       {| content := "b" ++ nl; length := 2 |} = Ok 1.
Proof.
  split; [reflexivity|]. split; [reflexivity|].
  apply (rows_of_terminated_lines sample_ws sample_file
           [{| content := "a" ++ nl; length := 2 |}]
           {| content := "b" ++ nl; length := 2 |}
           [{| content := "c" ++ nl; length := 2 |}]);
    [reflexivity | reflexivity | left; discriminate].
Defined.

(** ** More on the pagination *)

Lemma frame_rows_at_least_length (ws : winsize) (frame : list Line) :
  0 < ws_col ws ->
  Forall (fun l => 1 <= length l) frame ->
  Z.of_nat (List.length frame) <= frame_rows ws frame.
Proof.
  intros Hc. induction 1 as [|l frame Hl _ IH]; simpl List.length; simpl;
    [lia|].
  pose proof (rows_of_pos ws l Hc Hl). lia.
Qed.

(** For the lines [getline] closes with a newline, the rows charged are the
    rows taken on the terminal. *)
Lemma rows_on_screen_terminated (ws : winsize) (l : Line) :
  0 < ws_col ws ->
  length l = Z.of_nat (String.length (content l)) -> terminated l ->
  rows_of ws l = rows_on_screen ws l.
Proof.
  intros Hc Hlen (body & _ & Hbody).
  destruct (rows_needed_newline_terminated ws l body Hc Hbody Hlen)
    as [_ E].
  unfold rows_of, rows_on_screen. now rewrite E.
Qed.

Lemma frame_rows_on_screen_terminated (ws : winsize) (lines : list Line) :
  0 < ws_col ws ->
  getline_shaped lines -> Forall terminated lines ->
  forall k,
    frame_rows ws (firstn k lines) = frame_rows_on_screen ws (firstn k lines).
Proof.
  intros Hc. induction lines as [|l lines IH]; intros Hs Ht k.
  - now destruct k.
  - destruct k as [|k]; [reflexivity|].
    destruct Hs as (Hlen & _ & Hs). inversion Ht as [|? ? Hl Hrest]; subst.
    cbn [firstn frame_rows frame_rows_on_screen].
    now rewrite (rows_on_screen_terminated ws l Hc Hlen Hl), (IH Hs Hrest k).
Qed.

(** X4: the frame is the longest run of lines from the front of the store
    that fits the row budget: its text is the text of the first
    [lines_printed] lines, whole, and the walker is left at the line after
    them; it is charged [physical_lines_printed] rows, which is at least the
    number of its lines and at most [ws_row - 1] (0 on a terminal of no
    rows), and every longer run is charged more than [ws_row - 1] rows.
    When every line of the store ends with its newline, the rows charged
    are the rows taken on the terminal, so the frame leaves the last row
    free and no longer run of lines would. *)
Theorem frame_is_longest_fitting_prefix (ws : winsize) (lines : list Line)
    (p : page) :
  0 < ws_col ws ->
  Forall (fun l => 1 <= length l) lines ->
  print_text ws lines 0 0 EmptyString = Ok p ->
  0 <= lines_printed p
  /\ text p = frame_text (firstn (Z.to_nat (lines_printed p)) lines)
  /\ line_walker p = skipn (Z.to_nat (lines_printed p)) lines
  /\ lines_printed p <= physical_lines_printed p
  /\ physical_lines_printed p
     = frame_rows ws (firstn (Z.to_nat (lines_printed p)) lines)
  /\ physical_lines_printed p <= Z.max 0 (ws_row ws - 1)
  /\ (forall k,
        (Z.to_nat (lines_printed p) < k <= List.length lines)%nat ->
        ws_row ws - 1 < frame_rows ws (firstn k lines))
  /\ (getline_shaped lines -> Forall terminated lines ->
      frame_rows_on_screen ws (firstn (Z.to_nat (lines_printed p)) lines)
      <= Z.max 0 (ws_row ws - 1)
      /\ forall k,
           (Z.to_nat (lines_printed p) < k <= List.length lines)%nat ->
           ws_row ws - 1 < frame_rows_on_screen ws (firstn k lines)).
Proof.
  intros Hc Hlen H.
  assert (Hfit : physical_lines_printed p <= Z.max 0 (ws_row ws - 1)).
  { destruct (Z_lt_ge_dec 0 (ws_row ws - 1)) as [Hrow|Hrow].
    - destruct (print_text_page ws lines 0 0 EmptyString p H)
        as [frame Hpage].
      pose proof (page_within_budget ws _ _ _ _ _ _ Hpage). lia.
    - assert (E : (0 <? ws_row ws - 1) = false) by (apply Z.ltb_ge; lia).
      destruct lines; simpl in H; rewrite E in H; injection H as <-;
        simpl; lia. }
  destruct (print_text_page ws lines 0 0 EmptyString p H)
    as (frame & Hw & Ht & Hn & Hp & _ & Hex).
  simpl in Ht, Hn, Hp. rewrite Hn in *. rewrite Nat2Z.id in *.
  assert (Hfirst : firstn (List.length frame) lines = frame)
    by (rewrite Hw, firstn_app, Nat.sub_diag, firstn_all; simpl;
        apply app_nil_r).
  assert (Hlonger : forall k,
             (List.length frame < k <= List.length lines)%nat ->
             ws_row ws - 1 < frame_rows ws (firstn k lines)).
  { intros k Hk. rewrite Hw in Hlen, Hk |- *.
    apply Forall_app in Hlen. destruct Hlen as [Hf Hr].
    rewrite length_app in Hk.
    destruct (line_walker p) as [|l rest] eqn:Hlw; [simpl in Hk; lia|].
    rewrite firstn_app, firstn_all2 by lia.
    destruct (k - List.length frame)%nat as [|j] eqn:Ej; [lia|].
    simpl firstn. rewrite frame_rows_app. simpl frame_rows.
    inversion Hr as [|? ? Hl Hrest]; subst.
    pose proof (rows_of_pos ws l Hc Hl) as Hrow.
    assert (Hj : 0 <= frame_rows ws (firstn j rest)).
    { apply frame_rows_nonneg; [exact Hc|].
      rewrite <- (firstn_skipn j rest) in Hrest.
      now apply Forall_app in Hrest. }
    destruct (Z_lt_ge_dec (physical_lines_printed p) (ws_row ws - 1))
      as [Hlt|Hge].
    + specialize (Hex l rest eq_refl Hlt). lia.
    + lia. }
  rewrite Hfirst.
  split; [lia|]. split; [exact Ht|].
  split; [rewrite Hw, skipn_app, Nat.sub_diag, skipn_all; reflexivity|].
  split.
  { rewrite Hp. apply frame_rows_at_least_length; [exact Hc|].
    rewrite Hw in Hlen. now apply Forall_app in Hlen. }
  split; [exact Hp|]. split; [exact Hfit|]. split; [exact Hlonger|].
  intros Hs Hterm. split.
  - rewrite <- Hfirst.
    rewrite <- (frame_rows_on_screen_terminated ws lines Hc Hs Hterm).
    rewrite Hfirst, <- Hp. exact Hfit.
  - intros k Hk.
    rewrite <- (frame_rows_on_screen_terminated ws lines Hc Hs Hterm).
    now apply Hlonger.
Qed.

Lemma frame_is_longest_fitting_prefix_witness :
  0 < ws_col narrow_ws
  /\ Forall (fun l => 1 <= length l) sample_lines
  /\ frame_rows_on_screen narrow_ws (firstn 1 sample_lines)
     <= Z.max 0 (ws_row narrow_ws - 1)
  /\ ws_row narrow_ws - 1
     < frame_rows_on_screen narrow_ws (firstn 2 sample_lines).
Proof.
  split; [reflexivity|].
  assert (Hlen : Forall (fun l => 1 <= length l) sample_lines)
    by (repeat constructor; discriminate).
  split; [exact Hlen|].
  assert (Hp : exists p,
             print_text narrow_ws sample_lines 0 0 EmptyString = Ok p
             /\ lines_printed p = 1) by (eexists; split; reflexivity).
  destruct Hp as (p & Hp & Hn).
  destruct (frame_is_longest_fitting_prefix narrow_ws sample_lines p
              eq_refl Hlen Hp) as (_ & _ & _ & _ & _ & _ & _ & Hscreen).
  rewrite Hn in Hscreen.
  specialize (Hscreen (read_lines_shaped sample_file EmptyString eq_refl)
                (read_lines_terminated sample_file EmptyString eq_refl
                   eq_refl)).
  destruct Hscreen as [Hfit Hk].
  split; [exact Hfit|]. apply Hk. simpl. lia.
Defined.

Lemma rows_of_short_line (ws : winsize) (l : Line) :
  0 < ws_col ws -> 1 <= length l <= ws_col ws + 1 -> rows_of ws l = 1.
Proof.
  intros Hc Hl. unfold rows_of, rows_needed.
  destruct (ws_col ws =? 0) eqn:E0; [apply Z.eqb_eq in E0; lia|].
  destruct (length l =? 1) eqn:E1; [reflexivity|].
  apply Z.eqb_neq in E1.
  pose proof (ceil_quot_spec (length l - 1) (ws_col ws) Hc). nia.
Qed.

Lemma frame_rows_short_lines (ws : winsize) (frame : list Line) :
  0 < ws_col ws ->
  Forall (fun l => 1 <= length l <= ws_col ws + 1) frame ->
  frame_rows ws frame = Z.of_nat (List.length frame).
Proof.
  intros Hc. induction 1 as [|l frame Hl _ IH]; simpl List.length; simpl;
    [reflexivity|].
  rewrite (rows_of_short_line ws l Hc Hl), IH. lia.
Qed.

(** X5: when no line is wider than the terminal, every line takes one row and
    the frame shows [ws_row - 1] lines, or all the lines of the store when
    there are fewer. *)
Theorem frame_of_short_lines (ws : winsize) (lines : list Line) (p : page) :
  1 <= ws_row ws ->
  0 < ws_col ws ->
  Forall (fun l => 1 <= length l <= ws_col ws + 1) lines ->
  print_text ws lines 0 0 EmptyString = Ok p ->
  lines_printed p = Z.min (Z.of_nat (List.length lines)) (ws_row ws - 1)
  /\ physical_lines_printed p = lines_printed p.
Proof.
  intros Hr Hc Hlen H.
  destruct (print_text_page ws lines 0 0 EmptyString p H)
    as (frame & Hw & Ht & Hn & Hp & Hin & Hex).
  assert (Hle : physical_lines_printed p <= ws_row ws - 1)
    by (apply (page_within_budget ws _ _ _ _ _ _
                 (conj Hw (conj Ht (conj Hn (conj Hp (conj Hin Hex))))));
        lia).
  simpl in Hn, Hp.
  rewrite Hw in Hlen. apply Forall_app in Hlen. destruct Hlen as [Hf Hrest].
  rewrite (frame_rows_short_lines ws frame Hc Hf) in Hp.
  split; [|lia].
  rewrite Hn, Hw, length_app.
  destruct (line_walker p) as [|l rest] eqn:Hlw.
  - simpl. lia.
  - inversion Hrest as [|? ? Hl _]; subst.
    pose proof (rows_of_short_line ws l Hc Hl) as Hone.
    destruct (Z_lt_ge_dec (physical_lines_printed p) (ws_row ws - 1))
      as [Hlt|Hge].
    + specialize (Hex l rest eq_refl Hlt). lia.
    + simpl List.length. lia.
Qed.

Lemma frame_of_short_lines_witness :
  1 <= ws_row narrow_ws
  /\ 0 < ws_col narrow_ws
  /\ exists p,
       print_text narrow_ws sample_lines 0 0 EmptyString = Ok p
       /\ lines_printed p = Z.min 3 (2 - 1).
Proof.
  split; [simpl; lia|]. split; [reflexivity|].
  assert (Hp : exists p,
             print_text narrow_ws sample_lines 0 0 EmptyString = Ok p)
    by (eexists; reflexivity).
  destruct Hp as (p & Hp). exists p. split; [exact Hp|].
  apply (frame_of_short_lines narrow_ws sample_lines p);
    [simpl; lia | reflexivity | | exact Hp].
  repeat constructor; simpl; lia.
Defined.

(** ** Invariants of the signal loop *)

Section Run.

Variables (seconds : Z) (ws : winsize).

Hypothesis interval : 1 <= seconds.
Hypothesis columns : ws_col ws <> 0.

(** A render of a store that is not empty draws. *)
Lemma render_defined (st : State) (now : tm) (out : string) :
  head st <> [] ->
  exists p,
    print_text ws (head st) 0 0 EmptyString = Ok p
    /\ render ws st now out
       = Rendered
           (if first_frame_is_whole ws p (start_line_number st)
            then set_display_and_exit true st else st)
           (out ++ text p ++ goto_bottom_row ws
              ++ status_bar (fmt_T now) (start_line_number st)
                   (start_line_number st + lines_printed p - 1)
              ++ park_cursor ws).
Proof.
  intros Hne.
  destruct (print_text_defined ws (head st) 0 0 EmptyString Hne columns)
    as [p Hp].
  exists p. split; [exact Hp | now apply render_Ok].
Qed.

Lemma handle_invariant (st : State) (sig : signal) :
  run_invariant seconds st ->
  well_defined (handle seconds ws st sig)
  /\ forall st',
       continues (handle seconds ws st sig) = Some st' ->
       run_invariant seconds st'.
Proof.
  intros (Hne & Hs & Ht & Hd).
  destruct sig as [now| | | |signo]; simpl;
    try (split; [exact I|]; intros st' [= <-];
         repeat split; simpl; auto; lia);
    try (split; [reflexivity | discriminate]).
  unfold tick. destruct (negb (paused st)).
  - destruct (((time_to_scroll st - 1 =? 0) && (start_line_number st >? 1))
              || (time_to_scroll st - 1 =? -1)) eqn:Efire.
    + destruct (display_and_exit st) eqn:Hdae;
        [split; [exact I | discriminate]|].
      destruct (head st) as [|front [|l' next']] eqn:Hh;
        [contradiction | split; [exact I | discriminate] |].
      destruct (render_defined
                  {| head := l' :: next';
                     start_line_number := start_line_number st + 1;
                     display_and_exit := false; paused := paused st;
                     time_to_scroll := seconds |} now clear_screen
                  ltac:(discriminate)) as (p & _ & ->).
      split; [exact I|]. intros st' [= <-].
      destruct (first_frame_is_whole _ _ _); repeat split; simpl;
        try discriminate; try lia.
    + destruct (render_defined (set_time_to_scroll (time_to_scroll st - 1) st)
                  now clear_screen Hne) as (p & _ & ->).
      split; [exact I|]. intros st' [= <-].
      apply orb_false_iff in Efire. destruct Efire as [E0 E1].
      apply Z.eqb_neq in E1. apply andb_false_iff in E0.
      assert (Hz : time_to_scroll st - 1 <> 0 \/ start_line_number st = 1).
      { destruct E0 as [E0|E0]; [left; now apply Z.eqb_neq in E0|].
        right. rewrite Z.gtb_ltb in E0. apply Z.ltb_ge in E0. lia. }
      destruct (first_frame_is_whole _ _ _); repeat split; simpl;
        try assumption; lia.
  - destruct (render_defined st now clear_screen Hne) as (p & _ & ->).
    split; [exact I|]. intros st' [= <-].
    destruct (first_frame_is_whole _ _ _); repeat split; simpl;
      try assumption; lia.
Qed.


Lemma state_after_invariant (sigs : list signal) :
  forall st st',
    run_invariant seconds st ->
    state_after seconds ws st sigs = Some st' ->
    run_invariant seconds st'.
Proof.
  induction sigs as [|sig sigs IH]; intros st st' Hst H; simpl in H.
  - now injection H as <-.
  - destruct (continues (handle seconds ws st sig)) as [st1|] eqn:E;
      [|discriminate].
    apply (IH st1); [|exact H].
    now apply (proj2 (handle_invariant st sig Hst)).
Qed.

End Run.

Lemma initial_run_invariant (seconds : Z) (lines : list Line) :
  1 <= seconds -> lines <> [] ->
  run_invariant seconds (initial_state seconds lines).
Proof. intros Hs Hne. repeat split; simpl; auto; lia. Qed.



(** X7: on a file that is not empty, in every state in which the loop waits for
    a signal the store still holds a line, and the countdown lies between 0
    and the interval; once the window has scrolled it is at least 1, so that
    the next scroll comes when it reaches 0. *)
Theorem countdown_stays_in_range (seconds : Z) (ws : winsize)
    (file : string) (sigs : list signal) (st : State) :
  1 <= seconds -> ws_col ws <> 0 -> file <> EmptyString ->
  state_after seconds ws
    (initial_state seconds (read_lines file EmptyString)) sigs = Some st ->
  head st <> []
  /\ 0 <= time_to_scroll st <= seconds
  /\ (1 < start_line_number st -> 1 <= time_to_scroll st).
Proof.
  intros Hs Hc Hf H.
  assert (Hne : read_lines file EmptyString <> []).
  { intros E. pose proof (read_lines_text file EmptyString) as T.
    rewrite E in T. simpl in T. congruence. }
  destruct (state_after_invariant seconds ws Hs Hc sigs _ st
              (initial_run_invariant seconds _ Hs Hne) H)
    as (A & B & C & D).
  repeat split; try assumption; lia.
Qed.

Lemma countdown_stays_in_range_witness :
  1 <= 2
  /\ ws_col narrow_ws <> 0
  /\ sample_file <> EmptyString
  /\ state_after 2 narrow_ws
       (initial_state 2 (read_lines sample_file EmptyString))
       [SIGALRM noon; SIGALRM noon; SIGALRM noon] = Some (after_scroll 2)
  /\ 0 <= time_to_scroll (after_scroll 2) <= 2.
Proof.
  split; [lia|]. split; [discriminate|]. split; [discriminate|].
  split; [reflexivity|].
  apply (countdown_stays_in_range 2 narrow_ws sample_file
           [SIGALRM noon; SIGALRM noon; SIGALRM noon] (after_scroll 2));
    [lia | discriminate | discriminate | reflexivity].
Defined.

(** ** The line numbers of the status bar *)

Lemma handle_start_bound (seconds : Z) (ws : winsize) (lines : list Line)
    (st st' : State) (sig : signal) :
  store_in_step lines st ->
  (Z.to_nat (start_line_number st - 1) <= List.length lines)%nat ->
  continues (handle seconds ws st sig) = Some st' ->
  (Z.to_nat (start_line_number st' - 1) <= List.length lines)%nat.
Proof.
  intros [H1 Hs] Hb H.
  destruct (handle_window _ _ _ _ _ H) as [[E1 _]|(E1 & [front E2] & _)].
  - now rewrite E1.
  - rewrite E1. rewrite E2 in Hs.
    assert (L : List.length (front :: head st')
                = (List.length lines - Z.to_nat (start_line_number st - 1))%nat)
      by (rewrite Hs; apply length_skipn).
    simpl in L. lia.
Qed.

Lemma state_after_start_bound (seconds : Z) (ws : winsize)
    (lines : list Line) (sigs : list signal) :
  forall st st',
    store_in_step lines st ->
    (Z.to_nat (start_line_number st - 1) <= List.length lines)%nat ->
    state_after seconds ws st sigs = Some st' ->
    store_in_step lines st'
    /\ (Z.to_nat (start_line_number st' - 1) <= List.length lines)%nat.
Proof.
  induction sigs as [|sig sigs IH]; intros st st' Hs Hb H; simpl in H.
  - injection H as <-. now split.
  - destruct (continues (handle seconds ws st sig)) as [st1|] eqn:E;
      [|discriminate].
    apply (IH st1); [| |exact H].
    + eapply handle_store; eassumption.
    + eapply handle_start_bound; eassumption.
Qed.

(** X8: whenever the loop draws, the text between the clearing of the screen and
    the status bar is exactly the lines [first] to [last] of the file, where
    [first] and [last] are the numbers the status bar shows; [first] is at
    least 1 and [last] is at most the number of lines of the file. *)
Theorem status_bar_names_the_lines_shown (seconds : Z) (ws : winsize)
    (lines : list Line) (sigs : list signal) (st : State) (now : tm)
    (st' : State) (out : string) :
  state_after seconds ws (initial_state seconds lines) sigs = Some st ->
  tick seconds ws st now = Rendered st' out ->
  exists n : nat,
    1 <= start_line_number st'
    /\ start_line_number st' + Z.of_nat n - 1 <= Z.of_nat (List.length lines)
    /\ out = clear_screen
              ++ frame_text
                   (firstn n
                      (skipn (Z.to_nat (start_line_number st' - 1)) lines))
              ++ goto_bottom_row ws
              ++ status_bar (fmt_T now) (start_line_number st')
                   (start_line_number st' + Z.of_nat n - 1)
              ++ park_cursor ws.
Proof.
  intros Hreach Htick.
  assert (Hinit : store_in_step lines (initial_state seconds lines))
    by (split; simpl; [lia | reflexivity]).
  destruct (state_after_start_bound seconds ws lines sigs _ st Hinit
              ltac:(simpl; lia) Hreach) as [Hs Hb].
  assert (Hstep : continues (handle seconds ws st (SIGALRM now)) = Some st')
    by (simpl; now rewrite Htick).
  pose proof (handle_store seconds ws lines st st' _ Hs Hstep) as [H1 Hs'].
  pose proof (handle_start_bound seconds ws lines st st' _ Hs Hb Hstep) as Hb'.
  destruct (tick_Rendered _ _ _ _ _ _ Htick) as [st1 R].
  pose proof (render_state _ _ _ _ _ _ R) as (Rh & Rs & _).
  destruct (render_inv _ _ _ _ _ R) as [(p & Hp & E)|(u & E)];
    [|discriminate].
  injection E as _ ->.
  destruct (print_text_page ws _ _ _ _ _ Hp) as (frame & Hw & Ht & Hn & _).
  simpl in Ht, Hn. exists (List.length frame).
  assert (Hhead : head st' = (frame ++ line_walker p)%list) by congruence.
  assert (Hlen : List.length (head st')
                 = (List.length lines
                    - Z.to_nat (start_line_number st' - 1))%nat)
    by (rewrite Hs'; apply length_skipn).
  rewrite Hhead, length_app in Hlen.
  split; [exact H1|]. split; [lia|].
  rewrite <- Hs', Hhead, firstn_app, Nat.sub_diag, firstn_all. simpl firstn.
  rewrite app_nil_r, Rs, Ht, Hn. reflexivity.
Qed.

Lemma status_bar_names_the_lines_shown_witness :
  state_after 1 narrow_ws (initial_state 1 sample_lines) [SIGALRM noon]
  = Some about_to_scroll
  /\ tick 1 narrow_ws about_to_scroll noon
     = Rendered (after_scroll 1)
         (clear_screen ++ "b" ++ nl ++ ESC ++ "[2;1f"
            ++ "12:00:07 Lines: 2-2" ++ ESC ++ "[78G")
  /\ exists n : nat,
       2 + Z.of_nat n - 1 <= 3
       /\ clear_screen ++ "b" ++ nl ++ ESC ++ "[2;1f"
            ++ "12:00:07 Lines: 2-2" ++ ESC ++ "[78G"
          = clear_screen
              ++ frame_text (firstn n (skipn 1 sample_lines))
              ++ goto_bottom_row narrow_ws
              ++ status_bar (fmt_T noon) 2 (2 + Z.of_nat n - 1)
              ++ park_cursor narrow_ws.
Proof.
  split; [reflexivity|]. split; [reflexivity|].
  destruct (status_bar_names_the_lines_shown 1 narrow_ws sample_lines
              [SIGALRM noon] about_to_scroll noon (after_scroll 1)
              (clear_screen ++ "b" ++ nl ++ ESC ++ "[2;1f"
                 ++ "12:00:07 Lines: 2-2" ++ ESC ++ "[78G")
              eq_refl eq_refl) as (n & _ & Hlast & Hout).
  exists n. split; [exact Hlast | exact Hout].
Defined.

(** ** The schedule of the scrolls *)

Section Schedule.

Variables (seconds : Z) (ws : winsize).

Hypothesis interval : 1 <= seconds.
Hypothesis columns : ws_col ws <> 0.

Lemma fires_dec (st : State) :
  run_invariant seconds st ->
  (fires st
   /\ ((time_to_scroll st - 1 =? 0) && (start_line_number st >? 1))
      || (time_to_scroll st - 1 =? -1) = true)
  \/ (~ fires st
      /\ ((time_to_scroll st - 1 =? 0) && (start_line_number st >? 1))
         || (time_to_scroll st - 1 =? -1) = false).
Proof.
  intros (_ & Hs & Ht & Hd). unfold fires. rewrite Z.gtb_ltb.
  destruct (Z.eqb_spec (time_to_scroll st - 1) 0) as [E0|E0];
    destruct (Z.ltb_spec 1 (start_line_number st)) as [E1|E1];
    destruct (Z.eqb_spec (time_to_scroll st - 1) (-1)) as [E2|E2]; simpl;
    first [left; split; [lia | reflexivity]
          | right; split; [lia | reflexivity]].
Qed.

(** A tick that does not fire only counts down and draws. *)
Lemma tick_quiet (st : State) (now : tm) :
  run_invariant seconds st -> paused st = false -> ~ fires st ->
  exists p,
    print_text ws (head st) 0 0 EmptyString = Ok p
    /\ tick seconds ws st now
       = Rendered
           (if first_frame_is_whole ws p (start_line_number st)
            then set_display_and_exit true
                   (set_time_to_scroll (time_to_scroll st - 1) st)
            else set_time_to_scroll (time_to_scroll st - 1) st)
           (clear_screen ++ text p ++ goto_bottom_row ws
              ++ status_bar (fmt_T now) (start_line_number st)
                   (start_line_number st + lines_printed p - 1)
              ++ park_cursor ws).
Proof.
  intros Hinv Hp Hq. unfold tick. rewrite Hp. cbn [negb].
  destruct (fires_dec st Hinv) as [[Hf _]|[_ ->]]; [contradiction|].
  destruct Hinv as (Hne & _).
  destruct (render_defined ws columns
              (set_time_to_scroll (time_to_scroll st - 1) st) now
              clear_screen Hne) as (p & Hpt & R).
  exists p. split; [exact Hpt | exact R].
Qed.

(** A tick that fires on a store of at least two lines, with
    [display_and_exit] not set, scrolls by one line and draws. *)
Lemma tick_scrolls (st : State) (now : tm) (front l' : Line)
    (next' : list Line) :
  run_invariant seconds st -> paused st = false -> fires st ->
  display_and_exit st = false ->
  head st = front :: l' :: next' ->
  exists out,
    tick seconds ws st now
    = Rendered
        {| head := l' :: next';
           start_line_number := start_line_number st + 1;
           display_and_exit := false; paused := false;
           time_to_scroll := seconds |} out.
Proof.
  intros Hinv Hp Hf Hd Hh. unfold tick. rewrite Hp, Hd, Hh. cbn [negb].
  destruct (fires_dec st Hinv) as [[_ ->]|[Hq _]]; [|contradiction].
  destruct (render_defined ws columns
              {| head := l' :: next';
                 start_line_number := start_line_number st + 1;
                 display_and_exit := false; paused := false;
                 time_to_scroll := seconds |} now clear_screen
              ltac:(discriminate)) as (p & _ & R).
  rewrite R. unfold first_frame_is_whole. cbn [start_line_number].
  destruct Hinv as (_ & Hs & _).
  destruct (start_line_number st + 1 =? 1) eqn:E;
    [apply Z.eqb_eq in E; lia|].
  rewrite andb_false_r. eauto.
Qed.

(** A tick that fires with [display_and_exit] set, or on the last line of
    the store, raises SIGQUIT and draws nothing. *)
Lemma tick_quits (st : State) (now : tm) :
  run_invariant seconds st -> paused st = false -> fires st ->
  display_and_exit st = true \/ (exists l, head st = [l]) ->
  exists q, tick seconds ws st now = RaisedSIGQUIT q clear_screen.
Proof.
  intros Hinv Hp Hf Hend. unfold tick. rewrite Hp. cbn [negb].
  destruct (fires_dec st Hinv) as [[_ ->]|[Hq _]]; [|contradiction].
  destruct (display_and_exit st); [eauto|].
  destruct Hend as [Hd|[l Hl]]; [discriminate|]. rewrite Hl. eauto.
Qed.

(** The ticks before the countdown runs out leave the window alone. *)
Lemma quiet_ticks (nows : list tm) :
  forall st,
    run_invariant seconds st -> paused st = false ->
    Z.of_nat (List.length nows)
    = (if start_line_number st =? 1 then time_to_scroll st
       else time_to_scroll st - 1) ->
    exists st1,
      state_after seconds ws st (map SIGALRM nows) = Some st1
      /\ fires st1
      /\ head st1 = head st
      /\ start_line_number st1 = start_line_number st
      /\ paused st1 = false
      /\ (display_and_exit st1 = display_and_exit st
          \/ (start_line_number st = 1 /\ nows <> []
              /\ exists p,
                   print_text ws (head st) 0 0 EmptyString = Ok p
                   /\ first_frame_is_whole ws p 1 = true)).
Proof.
  induction nows as [|now nows IH]; intros st Hinv Hp Hn.
  - exists st. simpl in Hn. destruct Hinv as (_ & Hs & Ht & Hd).
    repeat split; auto. unfold fires.
    destruct (start_line_number st =? 1) eqn:E;
      [apply Z.eqb_eq in E | apply Z.eqb_neq in E]; lia.
  - assert (Hq : ~ fires st).
    { unfold fires. simpl List.length in Hn.
      destruct (start_line_number st =? 1) eqn:E;
        [apply Z.eqb_eq in E | apply Z.eqb_neq in E]; lia. }
    destruct (tick_quiet st now Hinv Hp Hq) as (p & Hpt & R).
    pose proof (handle_invariant seconds ws interval columns st
                  (SIGALRM now) Hinv) as [_ Hnext].
    simpl in Hnext. simpl. rewrite R in *. simpl.
    set (st' := if first_frame_is_whole ws p (start_line_number st)
                then set_display_and_exit true
                       (set_time_to_scroll (time_to_scroll st - 1) st)
                else set_time_to_scroll (time_to_scroll st - 1) st) in *.
    assert (F : head st' = head st
                /\ start_line_number st' = start_line_number st
                /\ paused st' = paused st
                /\ time_to_scroll st' = time_to_scroll st - 1)
      by (subst st'; destruct (first_frame_is_whole _ _ _); simpl; auto).
    destruct F as (Fh & Fs & Fp & Ft).
    assert (Fd : display_and_exit st' = display_and_exit st
                 \/ (start_line_number st = 1
                     /\ first_frame_is_whole ws p 1 = true)).
    { subst st'.
      destruct (first_frame_is_whole ws p (start_line_number st)) eqn:W;
        [|now left].
      right. pose proof W as W'. unfold first_frame_is_whole in W'.
      apply andb_true_iff in W'. destruct W' as [_ W2].
      apply Z.eqb_eq in W2. split; [exact W2|]. now rewrite W2 in W. }
    destruct (IH st' (Hnext st' eq_refl) ltac:(congruence))
      as (st1 & H1 & Hf1 & A & B & C & D).
    { rewrite Fs, Ft. simpl List.length in Hn.
      destruct (start_line_number st =? 1); lia. }
    exists st1. split; [exact H1|]. split; [exact Hf1|].
    split; [congruence|]. split; [congruence|]. split; [exact C|].
    destruct D as [D|(D & _ & p' & Hp' & W')].
    + destruct Fd as [Fd|[Fd W]]; [left; congruence|].
      right. split; [exact Fd|]. split; [discriminate|]. eauto.
    + right. split; [congruence|]. split; [discriminate|].
      exists p'. rewrite <- Fh. auto.
Qed.

End Schedule.

(** X9: after a scroll the window stays for the interval: the [seconds - 1]
    ticks that follow redraw the same lines, and the tick after them scrolls
    by one line and sets the countdown again. *)
Theorem next_scroll_after_interval (seconds : Z) (ws : winsize) (st : State)
    (nows : list tm) (now : tm) (l1 l2 : Line) (rest : list Line) :
  1 <= seconds -> ws_col ws <> 0 ->
  paused st = false -> display_and_exit st = false ->
  1 < start_line_number st -> time_to_scroll st = seconds ->
  head st = l1 :: l2 :: rest ->
  List.length nows = Z.to_nat (seconds - 1) ->
  exists st1 out,
    state_after seconds ws st (map SIGALRM nows) = Some st1
    /\ head st1 = head st
    /\ start_line_number st1 = start_line_number st
    /\ tick seconds ws st1 now
       = Rendered
           {| head := l2 :: rest;
              start_line_number := start_line_number st + 1;
              display_and_exit := false; paused := false;
              time_to_scroll := seconds |} out.
Proof.
  intros Hs Hc Hp Hd Hst Ht Hh Hn.
  assert (Hinv : run_invariant seconds st).
  { repeat split; try lia. rewrite Hh. discriminate. }
  destruct (quiet_ticks seconds ws Hs Hc nows st Hinv Hp)
    as (st1 & H1 & Hf & A & B & C & D).
  { destruct (start_line_number st =? 1) eqn:E;
      [apply Z.eqb_eq in E|]; lia. }
  assert (Hd1 : display_and_exit st1 = false)
    by (destruct D as [D|(D & _)]; [congruence | lia]).
  pose proof (state_after_invariant seconds ws Hs Hc _ _ _ Hinv H1) as Hinv1.
  rewrite Hh in A.
  destruct (tick_scrolls seconds ws Hc st1 now l1 l2 rest Hinv1 C Hf Hd1 A)
    as [out R].
  exists st1, out. rewrite B in R. rewrite Hh. auto.
Qed.

Lemma next_scroll_after_interval_witness :
  head (after_scroll 2) = tl sample_lines
  /\ exists st1 out,
       state_after 2 narrow_ws (after_scroll 2) (map SIGALRM [noon])
       = Some st1
       /\ tick 2 narrow_ws st1 noon
          = Rendered
              {| head := tl (tl sample_lines); start_line_number := 2 + 1;
                 display_and_exit := false; paused := false;
                 time_to_scroll := 2 |} out.
Proof.
  split; [reflexivity|].
  destruct (next_scroll_after_interval 2 narrow_ws (after_scroll 2) [noon]
              noon {| content := "b" ++ nl; length := 2 |}
              {| content := "c" ++ nl; length := 2 |} [])
    as (st1 & out & H1 & _ & _ & R);
    try reflexivity; try lia; try discriminate.
  exists st1, out. split; [exact H1 | exact R].
Defined.

(** X10: the first scroll comes one interval after the first frame: when the
    first frame is not one the loop takes for the whole file, the first
    [seconds] ticks (the initial one among them) draw the file from line 1,
    and the tick after them scrolls to line 2. *)
Theorem first_scroll_after_interval (seconds : Z) (ws : winsize)
    (p : page) (nows : list tm) (now : tm) (l1 l2 : Line)
    (rest : list Line) :
  1 <= seconds -> ws_col ws <> 0 ->
  print_text ws (l1 :: l2 :: rest) 0 0 EmptyString = Ok p ->
  first_frame_is_whole ws p 1 = false ->
  List.length nows = Z.to_nat seconds ->
  exists st1 out,
    state_after seconds ws (initial_state seconds (l1 :: l2 :: rest))
      (map SIGALRM nows) = Some st1
    /\ head st1 = l1 :: l2 :: rest
    /\ start_line_number st1 = 1
    /\ tick seconds ws st1 now
       = Rendered
           {| head := l2 :: rest; start_line_number := 2;
              display_and_exit := false; paused := false;
              time_to_scroll := seconds |} out.
Proof.
  intros Hs Hc Hp Hw Hn.
  set (st := initial_state seconds (l1 :: l2 :: rest)).
  assert (Hinv : run_invariant seconds st)
    by (apply initial_run_invariant; [lia | discriminate]).
  destruct (quiet_ticks seconds ws Hs Hc nows st Hinv eq_refl)
    as (st1 & H1 & Hf & A & B & C & D); [simpl; lia|].
  assert (Hd1 : display_and_exit st1 = false).
  { destruct D as [D|(_ & _ & p' & Hp' & W')]; [exact D|].
    unfold st in Hp'. cbn [head initial_state] in Hp'.
    rewrite Hp in Hp'. injection Hp' as <-. congruence. }
  pose proof (state_after_invariant seconds ws Hs Hc _ _ _ Hinv H1) as Hinv1.
  simpl in A, B.
  destruct (tick_scrolls seconds ws Hc st1 now l1 l2 rest Hinv1 C Hf Hd1 A)
    as [out R].
  exists st1, out. rewrite B in R. auto.
Qed.

Lemma first_scroll_after_interval_witness :
  exists st1 out,
    state_after 2 narrow_ws (initial_state 2 sample_lines)
      (map SIGALRM [noon; noon]) = Some st1
    /\ tick 2 narrow_ws st1 noon
       = Rendered
           {| head := tl sample_lines; start_line_number := 2;
              display_and_exit := false; paused := false;
              time_to_scroll := 2 |} out.
Proof.
  assert (Hp : exists p,
             print_text narrow_ws sample_lines 0 0 EmptyString = Ok p
             /\ first_frame_is_whole narrow_ws p 1 = false)
    by (eexists; split; reflexivity).
  destruct Hp as (p & Hp & Hw).
  destruct (first_scroll_after_interval 2 narrow_ws p [noon; noon] noon
              {| content := "a" ++ nl; length := 2 |}
              {| content := "b" ++ nl; length := 2 |}
              [{| content := "c" ++ nl; length := 2 |}]
              ltac:(lia) ltac:(discriminate) Hp Hw eq_refl)
    as (st1 & out & H1 & _ & _ & R).
  exists st1, out. split; [exact H1 | exact R].
Defined.

(** ** Reaching the end of the file *)

Lemma ticks_to_exit_pos (seconds : Z) (st : State) :
  1 <= seconds -> run_invariant seconds st -> 1 <= ticks_to_exit seconds st.
Proof.
  intros Hs (Hne & H1 & Ht & Hd). unfold ticks_to_exit.
  destruct (head st) as [|l ls]; [contradiction|]. simpl List.length.
  destruct (Z.eqb_spec (start_line_number st) 1); nia.
Qed.

Lemma ticks_reach_exit (seconds : Z) (ws : winsize) (nows : list tm) :
  1 <= seconds -> ws_col ws <> 0 ->
  forall st,
    run_invariant seconds st -> paused st = false ->
    ticks_to_exit seconds st <= Z.of_nat (List.length nows) ->
    exists renders q,
      main_loop seconds ws st (map SIGALRM nows)
      = (renders
           ++ [RaisedSIGQUIT q clear_screen;
               Exited EXIT_SUCCESS clear_screen EmptyString])%list
      /\ Forall (fun r => is_rendered r = true) renders
      /\ Z.of_nat (List.length renders) < ticks_to_exit seconds st.
Proof.
  intros Hs Hc.
  induction nows as [|now nows IH]; intros st Hinv Hp Hn.
  - pose proof (ticks_to_exit_pos seconds st Hs Hinv). simpl in Hn. lia.
  - pose proof Hinv as (Hne & H1 & Ht & Hd).
    pose proof (handle_invariant seconds ws Hs Hc st (SIGALRM now) Hinv)
      as [_ Hnext].
    simpl in Hnext. cbn [map main_loop handle].
    assert (Hstep : forall st' out,
               tick seconds ws st now = Rendered st' out ->
               paused st' = false ->
               ticks_to_exit seconds st' = ticks_to_exit seconds st - 1 ->
               exists renders q,
                 (Rendered st' out
                    :: main_loop seconds ws st' (map SIGALRM nows))
                 = (renders
                      ++ [RaisedSIGQUIT q clear_screen;
                          Exited EXIT_SUCCESS clear_screen EmptyString])%list
                 /\ Forall (fun r => is_rendered r = true) renders
                 /\ Z.of_nat (List.length renders)
                    < ticks_to_exit seconds st).
    { intros st' out R Hp' HT. rewrite R in Hnext.
      destruct (IH st' (Hnext st' eq_refl) Hp')
        as (renders & q & E & Hall & Hlen);
        [simpl List.length in Hn; lia|].
      exists (Rendered st' out :: renders), q. rewrite E.
      split; [reflexivity|]. split; [now constructor|].
      simpl List.length. lia. }
    destruct (fires_dec seconds st Hinv) as [[Hf _]|[Hq _]].
    + destruct (display_and_exit st) eqn:Hd0.
      * destruct (tick_quits seconds ws st now Hinv Hp Hf (or_introl Hd0))
          as [q R].
        rewrite R. exists [], q. split; [reflexivity|].
        split; [constructor|]. simpl.
        pose proof (ticks_to_exit_pos seconds st Hs Hinv). lia.
      * destruct (head st) as [|front [|l' next']] eqn:Hh; [contradiction| |].
        -- destruct (tick_quits seconds ws st now Hinv Hp Hf)
             as [q R]; [right; rewrite Hh; eauto|].
           rewrite R. exists [], q. split; [reflexivity|].
           split; [constructor|]. simpl.
           pose proof (ticks_to_exit_pos seconds st Hs Hinv). lia.
        -- destruct (tick_scrolls seconds ws Hc st now front l' next'
                       Hinv Hp Hf Hd0 Hh) as [out R].
           rewrite R. apply (Hstep _ out R eq_refl).
           unfold ticks_to_exit. rewrite Hh.
           cbn [head start_line_number time_to_scroll].
           destruct (start_line_number st + 1 =? 1) eqn:E1;
             [apply Z.eqb_eq in E1; lia|].
           simpl List.length. unfold fires in Hf.
           destruct (start_line_number st =? 1) eqn:E;
             [apply Z.eqb_eq in E | apply Z.eqb_neq in E]; nia.
    + destruct (tick_quiet seconds ws Hc st now Hinv Hp Hq)
        as (p & _ & R).
      rewrite R. apply (Hstep _ _ R).
      * destruct (first_frame_is_whole _ _ _); exact Hp.
      * unfold ticks_to_exit.
        destruct (first_frame_is_whole _ _ _); simpl;
          destruct (start_line_number st =? 1); lia.
Qed.

(** X11: when only ticks arrive, the viewer reaches the end of a file that is
    not empty: after at most [seconds] renders for each line of the file it
    raises SIGQUIT, clears the screen and exits with [EXIT_SUCCESS]. *)
Theorem end_of_file_is_reached (seconds : Z) (ws : winsize) (file : string)
    (nows : list tm) :
  1 <= seconds -> ws_col ws <> 0 -> file <> EmptyString ->
  seconds * Z.of_nat (List.length (read_lines file EmptyString)) + 1
  <= Z.of_nat (List.length nows) ->
  exists renders q,
    main_loop seconds ws
      (initial_state seconds (read_lines file EmptyString))
      (map SIGALRM nows)
    = (renders
         ++ [RaisedSIGQUIT q clear_screen;
             Exited EXIT_SUCCESS clear_screen EmptyString])%list
    /\ Forall (fun r => is_rendered r = true) renders
    /\ Z.of_nat (List.length renders)
       <= seconds * Z.of_nat (List.length (read_lines file EmptyString)).
Proof.
  intros Hs Hc Hf Hn.
  assert (Hne : read_lines file EmptyString <> []).
  { intros E. pose proof (read_lines_text file EmptyString) as T.
    rewrite E in T. simpl in T. congruence. }
  destruct (ticks_reach_exit seconds ws nows Hs Hc
              (initial_state seconds (read_lines file EmptyString))
              (initial_run_invariant seconds _ Hs Hne) eq_refl)
    as (renders & q & E & Hall & Hlen).
  - unfold ticks_to_exit. simpl. lia.
  - exists renders, q. split; [exact E|]. split; [exact Hall|].
    unfold ticks_to_exit in Hlen. simpl in Hlen. lia.
Qed.

Lemma end_of_file_is_reached_witness :
  exists renders q,
    main_loop 1 narrow_ws
      (initial_state 1 (read_lines sample_file EmptyString))
      (map SIGALRM [noon; noon; noon; noon])
    = (renders
         ++ [RaisedSIGQUIT q clear_screen;
             Exited EXIT_SUCCESS clear_screen EmptyString])%list
    /\ Z.of_nat (List.length renders) <= 3.
Proof.
  destruct (end_of_file_is_reached 1 narrow_ws sample_file
              [noon; noon; noon; noon])
    as (renders & q & E & _ & Hlen);
    [lia | discriminate | discriminate | simpl; lia |].
  exists renders, q. split; [exact E | exact Hlen].
Defined.

(** ** The first frame taken for the whole file *)

Section FirstFrame.

Variables (seconds : Z) (ws : winsize) (lines frame : list Line) (p : page).

Hypothesis first_page : print_text ws lines 0 0 EmptyString = Ok p.
Hypothesis whole : first_frame_is_whole ws p 1 = true.
Hypothesis page_text : text p = frame_text frame.
Hypothesis page_lines : lines_printed p = Z.of_nat (List.length frame).

(** A render before any scroll draws [frame] and latches
    [display_and_exit]. *)
Lemma render_first_frame (st : State) (now : tm) :
  head st = lines -> start_line_number st = 1 ->
  render ws st now clear_screen
  = Rendered (set_display_and_exit true st) (whole_frame ws frame now).
Proof.
  intros Hh Hs. pose proof first_page as H. rewrite <- Hh in H.
  rewrite (render_Ok ws st now clear_screen p H), Hs, whole.
  unfold whole_frame. rewrite page_text, page_lines.
  now replace (1 + Z.of_nat (List.length frame) - 1)
    with (Z.of_nat (List.length frame)) by lia.
Qed.

Lemma handle_first_frame (st : State) (sig : signal) :
  counting_or_latched lines st ->
  shows_first_frame ws lines frame (handle seconds ws st sig)
  /\ forall st',
       continues (handle seconds ws st sig) = Some st' ->
       counting_or_latched lines st'.
Proof.
  intros (Hh & Hs & Ht & Hd).
  destruct sig as [now| | | |signo]; simpl.
  - unfold tick. destruct (negb (paused st)).
    + rewrite Hs. replace (1 >? 1) with false by reflexivity.
      rewrite andb_false_r. simpl.
      destruct (time_to_scroll st - 1 =? -1) eqn:E.
      * apply Z.eqb_eq in E.
        destruct Hd as [Hd|Hd]; [|lia]. rewrite Hd. simpl.
        split; [auto | discriminate].
      * apply Z.eqb_neq in E.
        rewrite (render_first_frame (set_time_to_scroll _ st) now Hh Hs).
        simpl. split; [repeat split; eauto|].
        intros st' [= <-]. unfold counting_or_latched. simpl.
        repeat split; auto. lia.
    + rewrite (render_first_frame st now Hh Hs). simpl.
      split; [repeat split; eauto|].
      intros st' [= <-]. unfold counting_or_latched. simpl.
      repeat split; auto.
  - split; [auto|]. intros st' [= <-]. red. simpl. auto.
  - split; [auto|]. intros st' [= <-]. red. simpl. auto.
  - split; [reflexivity | discriminate].
  - split; [reflexivity | discriminate].
Qed.

Lemma main_loop_first_frame (sigs : list signal) :
  forall st,
    counting_or_latched lines st ->
    Forall (shows_first_frame ws lines frame) (main_loop seconds ws st sigs).
Proof.
  induction sigs as [|sig sigs IH]; intros st Hst; simpl; [constructor|].
  destruct (handle_first_frame st sig Hst) as [Hr Hnext].
  constructor; [exact Hr|].
  destruct (handle seconds ws st sig) as [s o|s|s o|c o e|u]; simpl in *.
  - apply IH. now apply Hnext.
  - apply IH. now apply Hnext.
  - constructor; [reflexivity | constructor].
  - constructor.
  - constructor.
Qed.

Lemma main_loop_first_frame_countdown (nows : list tm) (last_now : tm) :
  forall d t,
    t = Z.of_nat (List.length nows) ->
    d = true \/ nows <> [] ->
    main_loop seconds ws (unscrolled lines d t)
      (map SIGALRM (nows ++ [last_now]))
    = (first_frame_renders ws lines frame t nows
         ++ [RaisedSIGQUIT (unscrolled lines true (-1)) clear_screen;
             Exited EXIT_SUCCESS clear_screen EmptyString])%list.
Proof.
  induction nows as [|now nows IH]; intros d t Ht Hd.
  - destruct Hd as [->|Hd]; [|contradiction]. subst t. reflexivity.
  - cbn [app map main_loop handle]. unfold tick.
    cbn [paused unscrolled negb start_line_number time_to_scroll].
    replace (1 >? 1) with false by reflexivity. rewrite andb_false_r.
    cbn [orb]. simpl List.length in Ht.
    destruct (t - 1 =? -1) eqn:E; [apply Z.eqb_eq in E; lia|].
    change (set_time_to_scroll (t - 1) (unscrolled lines d t))
      with (unscrolled lines d (t - 1)).
    rewrite (render_first_frame (unscrolled lines d (t - 1)) now
               eq_refl eq_refl).
    change (set_display_and_exit true (unscrolled lines d (t - 1)))
      with (unscrolled lines true (t - 1)).
    cbn [first_frame_renders app]. f_equal.
    apply IH; [lia | now left].
Qed.

Lemma count_first_frame_renders (t : Z) (nows : list tm)
    (tail : list step_result) :
  count_renders (first_frame_renders ws lines frame t nows ++ tail)
  = (List.length nows + count_renders tail)%nat.
Proof.
  revert t. induction nows as [|now nows IH]; intros t; [reflexivity|].
  unfold count_renders in *. simpl. now rewrite IH.
Qed.

End FirstFrame.

(** One round of the loop on a line that fits and is not the last. *)
Lemma print_text_step (ws : winsize) (l : Line) (next : list Line)
    (printed physical : Z) (out : string) :
  ws_col ws <> 0 -> next <> [] ->
  physical < ws_row ws - 1 ->
  physical + rows_of ws l <= ws_row ws - 1 ->
  print_text ws (l :: next) printed physical out
  = print_text ws next (printed + 1) (physical + rows_of ws l)
      (out ++ content l).
Proof.
  intros Hc Hne H1 H2. destruct next as [|l' next']; [contradiction|].
  cbn [print_text]. rewrite (rows_needed_defined ws l Hc).
  apply Z.ltb_lt in H1. apply Z.leb_le in H2. now rewrite H1, H2.
Qed.

(** When the lines in front of the last one fill the rows of the frame
    exactly, the loop stops with one line left. *)
Lemma print_text_exact_fill (ws : winsize) (rest : list Line)
    (frame : list Line) :
  0 < ws_col ws -> rest <> [] ->
  forall printed physical out,
    Forall (fun l => 1 <= length l) frame ->
    physical + frame_rows ws frame = ws_row ws - 1 ->
    print_text ws (frame ++ rest) printed physical out
    = Ok {| line_walker := rest;
            lines_printed := printed + Z.of_nat (List.length frame);
            physical_lines_printed := ws_row ws - 1;
            text := out ++ frame_text frame |}.
Proof.
  intros Hc Hrest.
  induction frame as [|l frame IH]; intros printed physical out Hlen Hfill.
  - simpl in Hfill. simpl app. simpl List.length. simpl frame_text.
    rewrite append_empty_r, Z.add_0_r.
    destruct rest as [|r rest']; [contradiction|]. cbn [print_text].
    destruct (physical <? ws_row ws - 1) eqn:E;
      [apply Z.ltb_lt in E; lia|].
    now rewrite <- Hfill, Z.add_0_r.
  - inversion Hlen as [|? ? Hl Hframe]; subst.
    pose proof (rows_of_pos ws l Hc Hl) as Hrows.
    pose proof (frame_rows_nonneg ws Hc frame Hframe) as Hnn.
    simpl in Hfill. simpl app.
    rewrite print_text_step; try lia.
    + rewrite IH; [|assumption|lia].
      cbn [frame_text List.length]. rewrite append_assoc.
      f_equal. f_equal. lia.
    + intros E. apply app_eq_nil in E. destruct E as [_ E]. contradiction.
Qed.

(** X12: when the first frame fills the [ws_row - 1] rows exactly and exactly
    one line of the file is left over, the loop takes the frame for the whole
    file: whatever signals arrive, every render draws the lines before the
    last one and the status bar from line 1, no scroll happens, and when only
    ticks arrive the viewer exits after [seconds] renders. The last line of
    the file is never drawn. *)
Theorem last_line_left_out (seconds : Z) (ws : winsize) (frame : list Line)
    (last : Line) :
  1 <= seconds -> 0 < ws_col ws ->
  Forall (fun l => 1 <= length l) frame ->
  frame_rows ws frame = ws_row ws - 1 ->
  (forall sigs,
      Forall (shows_first_frame ws (frame ++ [last]) frame)
        (main_loop seconds ws
           (initial_state seconds (frame ++ [last])) sigs))
  /\ (forall nows last_now,
        List.length nows = Z.to_nat seconds ->
        main_loop seconds ws (initial_state seconds (frame ++ [last]))
          (map SIGALRM (nows ++ [last_now]))
        = (first_frame_renders ws (frame ++ [last]) frame seconds nows
             ++ [RaisedSIGQUIT (unscrolled (frame ++ [last]) true (-1))
                   clear_screen;
                 Exited EXIT_SUCCESS clear_screen EmptyString])%list
        /\ count_renders
             (main_loop seconds ws (initial_state seconds (frame ++ [last]))
                (map SIGALRM (nows ++ [last_now])))
           = Z.to_nat seconds).
Proof.
  intros Hs Hc Hlen Hfill.
  pose proof (print_text_exact_fill ws [last] frame Hc ltac:(discriminate)
                0 0 EmptyString Hlen ltac:(lia)) as Hp.
  set (p := {| line_walker := [last];
               lines_printed := 0 + Z.of_nat (List.length frame);
               physical_lines_printed := ws_row ws - 1;
               text := EmptyString ++ frame_text frame |}) in Hp.
  assert (Hw : first_frame_is_whole ws p 1 = true).
  { unfold first_frame_is_whole, p. cbn [line_walker physical_lines_printed].
    now rewrite Z.eqb_refl. }
  split.
  - intros sigs.
    apply (main_loop_first_frame seconds ws _ frame p Hp Hw eq_refl
             eq_refl).
    repeat split; simpl; lia.
  - intros nows last_now Hn.
    assert (E : main_loop seconds ws (initial_state seconds (frame ++ [last]))
                  (map SIGALRM (nows ++ [last_now]))
                = (first_frame_renders ws (frame ++ [last]) frame seconds nows
                     ++ [RaisedSIGQUIT
                           (unscrolled (frame ++ [last]) true (-1))
                           clear_screen;
                         Exited EXIT_SUCCESS clear_screen EmptyString])%list).
    { apply (main_loop_first_frame_countdown seconds ws _ frame p Hp Hw
               eq_refl eq_refl nows last_now false seconds); [lia|].
      right. intros ->. simpl in Hn. lia. }
    split; [exact E|]. rewrite E, count_first_frame_renders.
    unfold count_renders. simpl. lia.
Qed.

Lemma last_line_left_out_witness :
  frame_rows {| ws_row := 3; ws_col := 80 |}
    [{| content := "a" ++ nl; length := 2 |};
     {| content := "b" ++ nl; length := 2 |}] = 3 - 1
  /\ main_loop 1 {| ws_row := 3; ws_col := 80 |}
       (initial_state 1 sample_lines) (map SIGALRM ([noon] ++ [noon]))
     = [Rendered (unscrolled sample_lines true 0)
          (clear_screen ++ "a" ++ nl ++ "b" ++ nl ++ ESC ++ "[3;1f"
             ++ "12:00:07 Lines: 1-2" ++ ESC ++ "[78G");
        RaisedSIGQUIT (unscrolled sample_lines true (-1)) clear_screen;
        Exited EXIT_SUCCESS clear_screen EmptyString].
Proof.
  split; [reflexivity|].
  apply (last_line_left_out 1 {| ws_row := 3; ws_col := 80 |}
           [{| content := "a" ++ nl; length := 2 |};
            {| content := "b" ++ nl; length := 2 |}]
           {| content := "c" ++ nl; length := 2 |});
    [lia | reflexivity | repeat constructor; discriminate | reflexivity
    | reflexivity].
Defined.

(** ** More on the command line *)

(** X13: only the first file name is used: whatever follows it on the
    command line, further names and options alike, is not looked at, with
    or without -s before it and with or without [--] before it. *)
Theorem only_first_operand_is_read (argv0 after_s after_path path : string)
    (pre others : list string) (s_value : option string) :
  option_prefix pre s_value ->
  (is_operand path = true ->
   command_line_processing argv0 after_s after_path (pre ++ path :: others)
   = command_line_processing argv0 after_s after_path (pre ++ [path])
   /\ command_line_processing argv0 after_s after_path (path :: others)
      = Parsed 1 (path ++ after_path))
  /\ command_line_processing argv0 after_s after_path
       (pre ++ "--" :: path :: others)
     = command_line_processing argv0 after_s after_path (pre ++ ["--"; path]).
Proof.
  intros Hpre. split; [intros Hp; split|].
  - rewrite (command_line_with_file argv0 after_s after_path path pre
               (path :: others) s_value Hpre)
      by (left; split; [exact Hp | now exists others]).
    rewrite (command_line_with_file argv0 after_s after_path path pre
               [path] s_value Hpre)
      by (left; split; [exact Hp | now exists []]).
    reflexivity.
  - apply (command_line_with_file argv0 after_s after_path path []
             (path :: others) None (or_introl (conj eq_refl eq_refl))).
    left. split; [exact Hp | now exists others].
  - rewrite (command_line_with_file argv0 after_s after_path path pre
               ("--" :: path :: others) s_value Hpre)
      by (right; now exists others).
    rewrite (command_line_with_file argv0 after_s after_path path pre
               ["--"; path] s_value Hpre)
      by (right; now exists []).
    reflexivity.
Qed.

Lemma only_first_operand_is_read_witness :
  option_prefix ["-s"; "5"] (Some "5")
  /\ command_line_processing "autoscroll" EmptyString EmptyString
       ["-s"; "5"; "notes.txt"; "-s"; "9"; "-x"; "other.txt"]
     = command_line_processing "autoscroll" EmptyString EmptyString
         ["-s"; "5"; "notes.txt"].
Proof.
  assert (H : option_prefix ["-s"; "5"] (Some "5"))
    by (right; exists "5"; split; [now left | reflexivity]).
  split; [exact H|].
  destruct (only_first_operand_is_read "autoscroll" EmptyString EmptyString
              "notes.txt" ["-s"; "5"] ["-s"; "9"; "-x"; "other.txt"]
              (Some "5") H) as [H1 _].
  exact (proj1 (H1 eq_refl)).
Defined.

(** X14: the option may be written in one word or in two, with the same
    result; and after [--] the next word is the file name, also one that
    begins with a dash. *)
Theorem option_forms_agree (argv0 after_s after_path v : string)
    (rest : list string) :
  v <> EmptyString ->
  command_line_processing argv0 after_s after_path
    (String "-" (String "s" v) :: rest)
  = command_line_processing argv0 after_s after_path ("-s" :: v :: rest)
  /\ forall pre s_value path others,
       option_prefix pre s_value ->
       command_line_processing argv0 after_s after_path
         (pre ++ "--" :: path :: others)
       = match extract_seconds argv0 after_s s_value with
         | inl seconds => Parsed seconds (path ++ after_path)
         | inr msg => Fatal msg
         end.
Proof.
  intros Hv. split.
  - unfold command_line_processing.
    destruct (getopt_loop_s argv0 v [String "-" (String "s" v)] rest)
      as [E1 _]; [right; now split|].
    destruct (getopt_loop_s argv0 v ["-s"; v] rest) as [E2 _]; [now left|].
    change (getopt_loop argv0 (String "-" (String "s" v) :: rest) None)
      with (getopt_loop argv0 ([String "-" (String "s" v)] ++ rest) None).
    change (getopt_loop argv0 ("-s" :: v :: rest) None)
      with (getopt_loop argv0 (["-s"; v] ++ rest) None).
    now rewrite E1, E2.
  - intros pre s_value path others Hpre.
    apply (command_line_with_file argv0 after_s after_path path pre
             ("--" :: path :: others) s_value Hpre).
    right. now exists others.
Qed.

Lemma option_forms_agree_witness :
  "5" <> EmptyString
  /\ command_line_processing "autoscroll" EmptyString EmptyString
       ["-s5"; "notes.txt"]
     = command_line_processing "autoscroll" EmptyString EmptyString
         ["-s"; "5"; "notes.txt"].
Proof.
  split; [discriminate|].
  exact (proj1 (option_forms_agree "autoscroll" EmptyString EmptyString
                  "5" ["notes.txt"] ltac:(discriminate))).
Defined.

(** ** Runs in parts, and the terminating signals *)



(** ** The program as a whole *)

(** X16: started on a terminal with a command line that is accepted, the
    program gives [fopen] one name and no other: the first file name of the
    command line followed by the bytes that lie after its unterminated copy
    (the file name itself when a NUL follows the copy).  When that name
    opens a file that is not empty, the window has a positive width, the
    clock then ticks [seconds] times for each line of the file and no other
    signal arrives, the program exits with [EXIT_SUCCESS]. *)
Theorem viewer_exits_with_success (env : environment) (argv0 : string)
    (args : list string) (seconds : Z) (name file : string) (ws : winsize)
    (nows : list tm) :
  isatty env = true ->
  command_line_processing argv0 (after_s_value env) (after_file_path env)
    args = Parsed seconds name ->
  fopen env name = Some file -> file <> EmptyString ->
  TIOCGWINSZ env = inl ws -> ws_col ws <> 0 ->
  delivered env = map SIGALRM nows ->
  seconds * Z.of_nat (List.length (read_lines file EmptyString))
  <= Z.of_nat (List.length nows) ->
  opened_files (main env argv0 args) = [name]
  /\ (exists s_value path operands,
         getopt_loop argv0 args None = OptionsDone s_value (path :: operands)
         /\ name = path ++ after_file_path env)
  /\ exit_status (main env argv0 args) = Some EXIT_SUCCESS.
Proof.
  intros Htty Hcl Hopen Hfile Hws Hc Hsigs Hn.
  destruct (command_line_seconds _ _ _ _ _ _ Hcl)
    as (sv & path & ops & Hg & Hname & He).
  pose proof (extract_seconds_range _ _ _ _ He) as [Hs _].
  assert (Hne : read_lines file EmptyString <> []).
  { intros E. pose proof (read_lines_text file EmptyString) as T.
    rewrite E in T. simpl in T. congruence. }
  unfold main. rewrite Htty, Hcl, Hopen, Hws, Hsigs. cbn [negb].
  split; [reflexivity|]. split; [now exists sv, path, ops|].
  change (SIGALRM (first_now env) :: map SIGALRM nows)
    with (map SIGALRM (first_now env :: nows)).
  destruct (ticks_reach_exit seconds ws (first_now env :: nows) Hs Hc
              (initial_state seconds (read_lines file EmptyString))
              (initial_run_invariant seconds _ Hs Hne) eq_refl)
    as (renders & q & E & _).
  - unfold ticks_to_exit. simpl. lia.
  - unfold exit_status. rewrite E.
    change (renders ++ [RaisedSIGQUIT q clear_screen;
                        Exited EXIT_SUCCESS clear_screen EmptyString])%list
      with (renders ++ [RaisedSIGQUIT q clear_screen]
                    ++ [Exited EXIT_SUCCESS clear_screen EmptyString])%list.
    now rewrite app_assoc, last_last.
Qed.

Lemma viewer_exits_with_success_witness :
  exit_status
    (main {| isatty := true;
             after_s_value := EmptyString; after_file_path := EmptyString;
             fopen := fun name =>
                        if (name =? "notes.txt")%string then Some sample_file
                        else None;
             TIOCGWINSZ := inl narrow_ws; first_now := noon;
             delivered := map SIGALRM [noon; noon; noon] |}
       "autoscroll" ["notes.txt"])
  = Some EXIT_SUCCESS.
Proof.
  apply (viewer_exits_with_success
           {| isatty := true;
              after_s_value := EmptyString; after_file_path := EmptyString;
              fopen := fun name =>
                         if (name =? "notes.txt")%string then Some sample_file
                         else None;
              TIOCGWINSZ := inl narrow_ws; first_now := noon;
              delivered := map SIGALRM [noon; noon; noon] |}
           "autoscroll" ["notes.txt"] 1 "notes.txt" sample_file narrow_ws
           [noon; noon; noon]);
    try reflexivity; discriminate.
Defined.
